(** * Robust finger tracking: training-side data preparation and model export

    A shallow embedding of the Python sources under [src/Training]:
    - [config.py]: the marker and joint tables;
    - [dataset.py]: [extract_columns], [split_dataset], [pre_process],
      [rigid_motion];
    - [train_joint_model.py]: [normalize_positions], [extract_input_features],
      [extract_output_features];
    - [train_marker_model.py]: [extract_features], [generate_minibatch];
    - [exporter.py]: [write_integer], [write_tensor], [save_model].

    Conventions of the embedding.
    - The [float32] scalars of the NumPy arrays are exact rationals ([Qc],
      rationals in lowest terms, with Leibniz equality).  Rounding, infinities
      and NaN are outside the model, except in [pre_process], whose row filter
      tests for NaN and therefore works on cells that may be NaN, and in
      [split_dataset], whose index depends on the rounding of a product of
      doubles and takes that rounding as a parameter.  What is stated of the
      geometry is its control flow, its data flow and the sign of a
      determinant; an equation that needs exact arithmetic is stated only
      with the hypothesis that makes it exact.
    - A Python exception is a value of [exn]; a call that may raise returns a
      [result].
    - The library routines the sources call but do not define are parameters:
      [numpy.linalg.svd] is an oracle that either returns a factorisation or
      raises [LinAlgError]; [numpy.random] is an interface ([NumpyRandom]) with
      the laws its documentation gives. *)

From Stdlib Require Import QArith Qcanon Qround Qabs ZArith Lia Lqa.
From stdpp Require Import base option list gmap strings sorting.

(** ** Exceptions and results *)

Inductive exn :=
  | LinAlgError
  | ValueError
  | IndexError
  | KeyError
  | AttributeError
  | UnboundLocalError
  | UnsupportedActivation (name : string).

Inductive result (A : Type) :=
  | Ok (a : A)
  | Raise (e : exn).
Arguments Ok {A} a.
Arguments Raise {A} e.

Definition rbind {A B} (m : result A) (k : A → result B) : result B :=
  match m with
  | Ok a => k a
  | Raise e => Raise e
  end.

Definition of_option {A} (o : option A) (e : exn) : result A :=
  match o with
  | Some a => Ok a
  | None => Raise e
  end.

(** [result] is an error monad; sequencing uses stdpp's [x ← m; k]. *)
Global Instance result_ret : MRet result := λ A a, Ok a.
Global Instance result_bind : MBind result := λ A B k m, rbind m k.

(** [for x in xs: ...], stopping at the first exception. *)
Fixpoint rmapM {A B} (f : A → result B) (xs : list A) : result (list B) :=
  match xs with
  | [] => Ok []
  | x :: xs' =>
      match f x with
      | Ok y =>
          match rmapM f xs' with
          | Ok ys => Ok (y :: ys)
          | Raise e => Raise e
          end
      | Raise e => Raise e
      end
  end.

(** ** Scalars *)

Local Open Scope Qc_scope.

Definition qz (z : Z) : Qc := Q2Qc (inject_Z z).

(** Closed goals over [Qc] are settled by evaluating their decision
    procedure: two equal rationals may carry different canonicity proofs. *)
Ltac qc_eval := apply (bool_decide_unpack _); vm_compute; exact I.

(** ** 3-vectors and 3x3 matrices (arrays of shape [(3,)] and [(3,3)]) *)

Record vec3 := V3 { vx : Qc; vy : Qc; vz : Qc }.
Record mat3 := M3 { row0 : vec3; row1 : vec3; row2 : vec3 }.

Global Instance vec3_eq_dec : EqDecision vec3.
Proof. solve_decision. Defined.
Global Instance mat3_eq_dec : EqDecision mat3.
Proof. solve_decision. Defined.
Global Instance exn_eq_dec : EqDecision exn.
Proof. solve_decision. Defined.
Global Instance result_eq_dec {A} `{EqDecision A} : EqDecision (result A).
Proof. solve_decision. Defined.

Definition vzero : vec3 := V3 0 0 0.
Definition vadd (a b : vec3) : vec3 := V3 (vx a + vx b) (vy a + vy b) (vz a + vz b).
Definition vsub (a b : vec3) : vec3 := V3 (vx a - vx b) (vy a - vy b) (vz a - vz b).
Definition vneg (a : vec3) : vec3 := V3 (- vx a) (- vy a) (- vz a).
Definition vscale (c : Qc) (a : vec3) : vec3 := V3 (c * vx a) (c * vy a) (c * vz a).
Definition vdiv (a : vec3) (c : Qc) : vec3 := V3 (vx a / c) (vy a / c) (vz a / c).
Definition vdot (a b : vec3) : Qc := vx a * vx b + vy a * vy b + vz a * vz b.

Definition mzero : mat3 := M3 vzero vzero vzero.
Definition meye : mat3 := M3 (V3 1 0 0) (V3 0 1 0) (V3 0 0 1).
Definition madd (A B : mat3) : mat3 :=
  M3 (vadd (row0 A) (row0 B)) (vadd (row1 A) (row1 B)) (vadd (row2 A) (row2 B)).

Definition col0 (A : mat3) : vec3 := V3 (vx (row0 A)) (vx (row1 A)) (vx (row2 A)).
Definition col1 (A : mat3) : vec3 := V3 (vy (row0 A)) (vy (row1 A)) (vy (row2 A)).
Definition col2 (A : mat3) : vec3 := V3 (vz (row0 A)) (vz (row1 A)) (vz (row2 A)).

(** [A.T] *)
Definition transpose (A : mat3) : mat3 := M3 (col0 A) (col1 A) (col2 A).

(** [v.dot(A)] for a row vector [v]. *)
Definition vmulm (v : vec3) (A : mat3) : vec3 :=
  V3 (vdot v (col0 A)) (vdot v (col1 A)) (vdot v (col2 A)).

(** [A.dot(B)] *)
Definition mmul (A B : mat3) : mat3 :=
  M3 (vmulm (row0 A) B) (vmulm (row1 A) B) (vmulm (row2 A) B).

(** [np.linalg.det] of a 3x3 matrix, by cofactor expansion along row 0. *)
Definition det (A : mat3) : Qc :=
  let '(M3 (V3 a b c) (V3 d e f) (V3 g h i)) := A in
  a * (e * i - f * h) - b * (d * i - f * g) + c * (d * h - e * g).

(** The outer product [y^T x] of two row vectors: the contribution of one
    pair of corresponding points to [Yc.T.dot(Xc)]. *)
Definition outer (y x : vec3) : mat3 :=
  M3 (vscale (vx y) x) (vscale (vy y) x) (vscale (vz y) x).

(** ** Point sets (arrays of shape [(N,3)]) *)

Definition points := list vec3.

Definition vsum (P : points) : vec3 := foldr vadd vzero P.

(** [np.mean(P, axis=0)].  (Of an empty array NumPy returns NaN, which the
    exact scalars do not have; here the quotient by zero is zero.) *)
Definition mean (P : points) : vec3 := vdiv (vsum P) (qz (Z.of_nat (length P))).

(** [P - m], the vector [m] broadcast over the rows. *)
Definition center (P : points) (m : vec3) : points := (λ p, vsub p m) <$> P.

(** [Yc.T.dot(Xc)] for [Yc], [Xc] of shapes [(Ny,3)] and [(Nx,3)]: a 3x3
    matrix when [Ny = Nx], and [ValueError] (shapes not aligned) otherwise. *)
Fixpoint dot_T (Yc Xc : points) : result mat3 :=
  match Yc, Xc with
  | [], [] => Ok mzero
  | y :: Yc', x :: Xc' =>
      match dot_T Yc' Xc' with
      | Ok H => Ok (madd (outer y x) H)
      | Raise e => Raise e
      end
  | _, _ => Raise ValueError
  end.

(** [P.dot(R) + offset] *)
Definition apply_motion (P : points) (R : mat3) (offset : vec3) : points :=
  (λ p, vadd (vmulm p R) offset) <$> P.

(** [P[idxs]] with a list of row indices; [IndexError] when one is out of
    bounds. *)
Definition take_rows (idxs : list nat) (P : points) : result points :=
  rmapM (λ i, of_option (P !! i) IndexError) idxs.

(** ** dataset.py: rigid_motion *)

(** What [np.linalg.svd(H)] returns: [(U, S, V)], where the third component
    is the matrix NumPy calls [V] in the source (the transposed right factor),
    so that [H = U diag(S) V]. *)
Definition svd_result : Type := mat3 * vec3 * mat3.

(** [V[2] = -V[2]] *)
Definition negate_last_row (V : mat3) : mat3 :=
  M3 (row0 V) (row1 V) (vneg (row2 V)).

(** The first argument stands for [np.linalg.svd]: a factorisation, or [None]
    when it raises [LinAlgError] ("SVD did not converge"). *)
Definition rigid_motion (svd : mat3 → option svd_result) (X Y : points)
  : result (mat3 * vec3) :=
  let X_mean := mean X in
  let Y_mean := mean Y in
  H ← dot_T (center Y Y_mean) (center X X_mean);
  '(U, _, V) ← of_option (svd H) LinAlgError;
  let R := mmul (transpose V) (transpose U) in
  let R := if decide (det R < 0)
           then mmul (transpose (negate_last_row V)) (transpose U)
           else R in
  let offset := vadd (vneg (vmulm X_mean R)) Y_mean in
  Ok (R, offset).

(** Names for the intermediate values of [rigid_motion]. *)
Definition cross_covariance (X Y : points) : result mat3 :=
  dot_T (center Y (mean Y)) (center X (mean X)).

Definition rotation_of (U V : mat3) : mat3 :=
  let R := mmul (transpose V) (transpose U) in
  if decide (det R < 0)
  then mmul (transpose (negate_last_row V)) (transpose U)
  else R.

Definition offset_of (X Y : points) (R : mat3) : vec3 :=
  vadd (vneg (vmulm (mean X) R)) (mean Y).

(** A partial stand-in for the SVD routine, used to run the code on concrete
    inputs: it factors diagonal matrices [diag(a,b,c)] with
    [|a| >= |b| >= |c|] as [I * diag(|a|,|b|,|c|) * diag(sgn a, sgn b, sgn c)]
    (singular values in descending order, as NumPy returns them; the sign of a
    zero entry is taken to be [+1]) and reports non-convergence on everything
    else. *)
Definition Qcabs (x : Qc) : Qc := if decide (x < 0) then - x else x.
Definition Qcsgn (x : Qc) : Qc := if decide (x < 0) then - 1 else 1.

Definition is_diagonal (H : mat3) : bool :=
  bool_decide (H = M3 (V3 (vx (row0 H)) 0 0) (V3 0 (vy (row1 H)) 0) (V3 0 0 (vz (row2 H)))).

Definition svd_diag (H : mat3) : option svd_result :=
  let a := vx (row0 H) in
  let b := vy (row1 H) in
  let c := vz (row2 H) in
  if is_diagonal H && bool_decide (Qcabs b <= Qcabs a) && bool_decide (Qcabs c <= Qcabs b)
  then Some (meye, V3 (Qcabs a) (Qcabs b) (Qcabs c),
             M3 (V3 (Qcsgn a) 0 0) (V3 0 (Qcsgn b) 0) (V3 0 0 (Qcsgn c)))
  else None.

(** ** Determinants *)











(** ** Facts about [rigid_motion] *)

Lemma dot_T_length Yc Xc : length Yc = length Xc → ∃ H, dot_T Yc Xc = Ok H.
Proof.
  revert Xc. induction Yc as [|y Yc IH]; intros [|x Xc] Hlen; simplify_eq/=; eauto.
  destruct (IH Xc) as [H ->]; eauto.
Qed.

Lemma dot_T_raises Yc Xc e :
  dot_T Yc Xc = Raise e → length Yc ≠ length Xc ∧ e = ValueError.
Proof.
  revert Xc. induction Yc as [|y Yc IH]; intros [|x Xc] Hr; simplify_eq/=; auto.
  destruct (dot_T Yc Xc) eqn:Hd; simplify_eq/=.
  destruct (IH _ Hd) as [? ->]. auto.
Qed.

Lemma cross_covariance_length X Y :
  length X = length Y → ∃ H, cross_covariance X Y = Ok H.
Proof.
  intros Hlen. apply dot_T_length. unfold center. by rewrite !length_fmap.
Qed.

Lemma dot_T_length_inv Yc Xc H : dot_T Yc Xc = Ok H → length Yc = length Xc.
Proof.
  revert Xc H. induction Yc as [|y Yc IH]; intros [|x Xc] H Hd; simplify_eq/=; auto.
  destruct (dot_T Yc Xc) eqn:Hd'; simplify_eq/=. f_equal. eauto.
Qed.

Lemma cross_covariance_length_inv X Y H :
  cross_covariance X Y = Ok H → length X = length Y.
Proof.
  intros HH. apply dot_T_length_inv in HH. unfold center in HH.
  by rewrite !length_fmap in HH.
Qed.

(** [rigid_motion] in terms of its intermediate values. *)
Lemma rigid_motion_unfold svd X Y :
  rigid_motion svd X Y =
    (H ← cross_covariance X Y;
     '(U, _, V) ← of_option (svd H) LinAlgError;
     Ok (rotation_of U V, offset_of X Y (rotation_of U V))).
Proof.
  unfold rigid_motion, cross_covariance, rotation_of, offset_of.
  destruct (dot_T _ _) as [H|]; [|reflexivity].
  cbn [mbind result_bind rbind].
  destruct (svd H) as [[[U Sv] V]|]; reflexivity.
Qed.

Lemma rigid_motion_ok svd X Y H U Sv V :
  cross_covariance X Y = Ok H →
  svd H = Some (U, Sv, V) →
  rigid_motion svd X Y = Ok (rotation_of U V, offset_of X Y (rotation_of U V)).
Proof.
  intros HH Hsvd. rewrite rigid_motion_unfold, HH.
  cbn [mbind result_bind rbind]. by rewrite Hsvd.
Qed.

Lemma rigid_motion_svd_failure svd X Y H :
  cross_covariance X Y = Ok H → svd H = None →
  rigid_motion svd X Y = Raise LinAlgError.
Proof.
  intros HH Hsvd. rewrite rigid_motion_unfold, HH.
  cbn [mbind result_bind rbind]. by rewrite Hsvd.
Qed.

(** Sample inputs: the six points [±e_i], their mirror image in the plane
    [z = 0], and three coincident points. *)
Definition octahedron : points :=
  [V3 1 0 0; V3 (-1) 0 0; V3 0 1 0; V3 0 (-1) 0; V3 0 0 1; V3 0 0 (-1)].
Definition mirror_z (P : points) : points := (λ p, V3 (vx p) (vy p) (- vz p)) <$> P.
Definition coincident (p : vec3) : points := [p; p; p].

Example rigid_motion_identity :
  rigid_motion svd_diag octahedron octahedron = Ok (meye, vzero).
Proof. qc_eval. Qed.

(** The mirrored cloud makes the naive [V.T.dot(U.T)] a reflection; the
    returned rotation is the corrected one. *)
Example rigid_motion_reflection_case :
  cross_covariance octahedron (mirror_z octahedron)
    = Ok (M3 (V3 (qz 2) 0 0) (V3 0 (qz 2) 0) (V3 0 0 (qz (-2)))) ∧
  svd_diag (M3 (V3 (qz 2) 0 0) (V3 0 (qz 2) 0) (V3 0 0 (qz (-2))))
    = Some (meye, V3 (qz 2) (qz 2) (qz 2), M3 (V3 1 0 0) (V3 0 1 0) (V3 0 0 (-1))) ∧
  det (mmul (transpose (M3 (V3 1 0 0) (V3 0 1 0) (V3 0 0 (-1)))) (transpose meye)) = - 1 ∧
  rigid_motion svd_diag octahedron (mirror_z octahedron) = Ok (meye, vzero).
Proof. repeat split; qc_eval. Qed.










(** The claim of C2 fails: three coincident points (so [H = 0], of rank 0) and
    two points (fewer than three) are both aligned without any exception. *)
Lemma rigid_motion_degenerate_returns :
  cross_covariance (coincident (V3 1 (qz 2) (qz 3))) (coincident (V3 0 0 (qz 5))) = Ok mzero ∧
  svd_diag mzero = Some (meye, vzero, meye) ∧
  rigid_motion svd_diag (coincident (V3 1 (qz 2) (qz 3))) (coincident (V3 0 0 (qz 5)))
    = Ok (meye, V3 (-1) (qz (-2)) (qz 2)) ∧
  rigid_motion svd_diag [V3 1 0 0; V3 (-1) 0 0] [V3 (qz 2) 0 0; V3 0 0 0]
    = Ok (meye, V3 1 0 0).
Proof. repeat split; qc_eval. Qed.

(** C2 (as the code has it). [rigid_motion] has no test on the number of
    points or on the rank of [H]: it raises exactly when the two arrays have
    different numbers of rows ([ValueError] from the matrix product) or when
    the SVD routine itself raises on [H] ([LinAlgError]); in every other case,
    degenerate or not, it returns a rotation and a translation. *)
Theorem rigid_motion_raises_iff svd X Y e :
  rigid_motion svd X Y = Raise e ↔
    (length X ≠ length Y ∧ e = ValueError) ∨
    (∃ H, cross_covariance X Y = Ok H ∧ svd H = None ∧ e = LinAlgError).
Proof.
  rewrite rigid_motion_unfold.
  destruct (cross_covariance X Y) as [H|e'] eqn:HH; cbn [mbind result_bind rbind].
  - destruct (svd H) as [[[U Sv] V]|] eqn:Hsvd; cbn [of_option rbind].
    + split; [done|]. intros [[Hlen _] | (H' & [= <-] & Hnone & _)]; [|congruence].
      apply cross_covariance_length_inv in HH. congruence.
    + split.
      * intros [= <-]. right. eauto.
      * intros [[Hlen _] | (H' & _ & _ & ->)]; [|done].
        apply cross_covariance_length_inv in HH. congruence.
  - apply dot_T_raises in HH as [Hlen ->].
    unfold center in Hlen. rewrite !length_fmap in Hlen. split.
    + intros [= <-]. left. split; [congruence|done].
    + intros [[_ ->] | (H' & [=] & _)]. done.
Qed.

(** ** config.py *)

Definition all_markers : list string :=
  ["LEHAR"; "LEHAL"; "WHARHAR"; "LRIF"; "LBAF"; "LMIF"; "LINF"; "LPAL"; "LTHF"]%string.

Definition alignment_points_markers_names : list string :=
  ["LEHAR"; "LEHAL"; "WHARHAR"]%string.

(** [l.index(x)] *)
Fixpoint list_index (x : string) (l : list string) : option nat :=
  match l with
  | [] => None
  | y :: l' => if decide (y = x) then Some 0%nat else S <$> list_index x l'
  end.

(** The loop at the end of config.py replaces each alignment marker name by
    its index in [all_markers]. *)
Definition alignment_points_markers : list nat :=
  omap (λ name, list_index name all_markers) alignment_points_markers_names.

Lemma alignment_points_markers_eq : alignment_points_markers = [0; 1; 2]%nat.
Proof. reflexivity. Qed.

(** ** train_joint_model.py: normalize_positions *)

(** The arrays of shape [(n, markers, 3)] live in a store and are passed by
    reference, as NumPy arrays are. *)
Definition loc := nat.
Abbreviation store := (gmap loc (list points)).

(** The local variables of [normalize_positions] that the loop updates.
    [R] and [offset] are bound together by one tuple assignment, and are
    unbound ([None]) until the first call of [rigid_motion] that returns. *)
Record locals := Locals {
  R_offset : option (mat3 * vec3);
  error_count : nat
}.

(** One iteration of the loop at index [i]. *)
Definition normalize_body (svd : mat3 → option svd_result) (Y : points)
    (positions_mocap : loc) (i : nat) (l : locals) (σ : store)
  : result locals * store :=
  match σ !! positions_mocap ≫= (.!! i) with
  | None => (Raise IndexError, σ)
  | Some frame =>
      (* X = positions_mocap[i, alignment_points_markers] *)
      match take_rows alignment_points_markers frame with
      | Raise e => (Raise e, σ)
      | Ok X =>
          (* try: R, offset = rigid_motion(X, Y)
             except: error_count += 1 *)
          let l :=
            match rigid_motion svd X Y with
            | Ok R_off => Locals (Some R_off) (error_count l)
            | Raise _ => Locals (R_offset l) (S (error_count l))
            end in
          (* positions_mocap[i] = positions_mocap[i].dot(R) + offset *)
          match R_offset l with
          | None => (Raise UnboundLocalError, σ)
          | Some (R, offset) =>
              (Ok l, alter (λ arr, <[i := apply_motion frame R offset]> arr)
                           positions_mocap σ)
          end
      end
  end.

(** [for i in range(...)]: *)
Fixpoint normalize_loop (svd : mat3 → option svd_result) (Y : points)
    (positions_mocap : loc) (range : list nat) (l : locals) (σ : store)
  : result locals * store :=
  match range with
  | [] => (Ok l, σ)
  | i :: range' =>
      match normalize_body svd Y positions_mocap i l σ with
      | (Ok l', σ') => normalize_loop svd Y positions_mocap range' l' σ'
      | (Raise e, σ') => (Raise e, σ')
      end
  end.

(** [normalize_positions(positions_mocap)], with the global [hand] (the
    template) as a parameter.  The result is the returned reference together
    with the error count that is printed, or the exception that escapes; the
    store is the one left behind in either case. *)
Definition normalize_positions (svd : mat3 → option svd_result) (hand : points)
    (positions_mocap : loc) (σ : store) : result (loc * nat) * store :=
  match take_rows alignment_points_markers hand with
  | Raise e => (Raise e, σ)
  | Ok Y =>
      let n := length (default [] (σ !! positions_mocap)) in
      match normalize_loop svd Y positions_mocap (seq 0 n) (Locals None 0) σ with
      | (Ok l, σ') => (Ok (positions_mocap, error_count l), σ')
      | (Raise e, σ') => (Raise e, σ')
      end
  end.

(** *** The loop, frame by frame *)

(** What one iteration does to the locals and to the frame it visits. *)
Definition normalize_frame (svd : mat3 → option svd_result) (Y : points)
    (l : locals) (frame : points) : result (locals * points) :=
  match take_rows alignment_points_markers frame with
  | Raise e => Raise e
  | Ok X =>
      let l :=
        match rigid_motion svd X Y with
        | Ok R_off => Locals (Some R_off) (error_count l)
        | Raise _ => Locals (R_offset l) (S (error_count l))
        end in
      match R_offset l with
      | None => Raise UnboundLocalError
      | Some (R, offset) => Ok (l, apply_motion frame R offset)
      end
  end.

(** The outcome of the loop over the frames still to visit, and what they
    hold afterwards (an exception leaves the frames not yet visited as they
    were). *)
Fixpoint normalize_frames (svd : mat3 → option svd_result) (Y : points)
    (l : locals) (frames : list points) : result locals * list points :=
  match frames with
  | [] => (Ok l, [])
  | f :: rest =>
      match normalize_frame svd Y l f with
      | Ok (l', f') =>
          let '(r, rest') := normalize_frames svd Y l' rest in (r, f' :: rest')
      | Raise e => (Raise e, f :: rest)
      end
  end.

Lemma normalize_body_frame svd Y p i l (σ : store) arr frame :
  σ !! p = Some arr → arr !! i = Some frame →
  normalize_body svd Y p i l σ =
    match normalize_frame svd Y l frame with
    | Ok (l', f') => (Ok l', <[p := <[i := f']> arr]> σ)
    | Raise e => (Raise e, σ)
    end.
Proof.
  intros Hp Hi. unfold normalize_body, normalize_frame.
  rewrite Hp. cbn [mbind option_bind]. rewrite Hi.
  destruct (take_rows _ frame) as [X|e]; [|done].
  destruct (rigid_motion svd X Y) as [[R t]|e]; cbn [R_offset].
  - f_equal. apply map_eq; intros q. rewrite lookup_alter, lookup_insert.
    destruct (decide (p = q)) as [->|]; [by rewrite Hp|done].
  - destruct (R_offset l) as [[R t]|]; [|done].
    f_equal. apply map_eq; intros q. rewrite lookup_alter, lookup_insert.
    destruct (decide (p = q)) as [->|]; [by rewrite Hp|done].
Qed.

Lemma normalize_loop_frames svd Y p (σ : store) l done todo :
  σ !! p = Some (done ++ todo) →
  normalize_loop svd Y p (seq (length done) (length todo)) l σ =
    (let '(r, todo') := normalize_frames svd Y l todo in
     (r, <[p := done ++ todo']> σ)).
Proof.
  revert σ l done. induction todo as [|f rest IH]; intros σ l done Hp.
  - cbn. by rewrite insert_id.
  - cbn [length seq normalize_loop normalize_frames].
    rewrite (normalize_body_frame _ _ _ _ _ _ _ f Hp)
      by (rewrite lookup_app_r, Nat.sub_diag by lia; done).
    destruct (normalize_frame svd Y l f) as [[l' f']|e].
    + replace (<[length done := f']> (done ++ f :: rest)) with ((done ++ [f']) ++ rest).
      2:{ rewrite insert_app_r_alt, Nat.sub_diag by lia. by rewrite <- app_assoc. }
      specialize (IH (<[p := (done ++ [f']) ++ rest]> σ) l' (done ++ [f'])).
      rewrite length_app, Nat.add_1_r in IH. rewrite IH by apply lookup_insert_eq.
      destruct (normalize_frames svd Y l' rest) as [r rest'].
      by rewrite insert_insert_eq, <- app_assoc.
    + by rewrite insert_id.
Qed.

(** [normalize_positions] in terms of the frame-by-frame loop: the array the
    argument refers to is overwritten in the store, and the reference itself
    is what is returned. *)
Lemma normalize_positions_frames svd hand p (σ : store) frames Y :
  σ !! p = Some frames →
  take_rows alignment_points_markers hand = Ok Y →
  normalize_positions svd hand p σ =
    match normalize_frames svd Y (Locals None 0) frames with
    | (Ok l, frames') => (Ok (p, error_count l), <[p := frames']> σ)
    | (Raise e, frames') => (Raise e, <[p := frames']> σ)
    end.
Proof.
  intros Hp HY. unfold normalize_positions. rewrite HY, Hp. cbn [default].
  rewrite (normalize_loop_frames svd Y p σ _ [] frames Hp). cbn [app].
  by destruct (normalize_frames _ _ _ _) as [[l|e] frames'].
Qed.

Lemma normalize_frame_unbound_failure svd Y n f X e :
  take_rows alignment_points_markers f = Ok X →
  rigid_motion svd X Y = Raise e →
  normalize_frame svd Y (Locals None n) f = Raise UnboundLocalError.
Proof. intros HX Hr. unfold normalize_frame. by rewrite HX, Hr. Qed.

Lemma normalize_frame_success svd Y l f X R t :
  take_rows alignment_points_markers f = Ok X →
  rigid_motion svd X Y = Ok (R, t) →
  normalize_frame svd Y l f
    = Ok (Locals (Some (R, t)) (error_count l), apply_motion f R t).
Proof. intros HX Hr. unfold normalize_frame. by rewrite HX, Hr. Qed.

(** After a failure the frame is still transformed, with whatever [R] and
    [offset] the last successful frame left behind. *)
Lemma normalize_frame_stale svd Y R0 t0 n f X e :
  take_rows alignment_points_markers f = Ok X →
  rigid_motion svd X Y = Raise e →
  normalize_frame svd Y (Locals (Some (R0, t0)) n) f
    = Ok (Locals (Some (R0, t0)) (S n), apply_motion f R0 t0).
Proof. intros HX Hr. unfold normalize_frame. by rewrite HX, Hr. Qed.

(** Once [R] and [offset] are bound the loop runs to its end. *)
Lemma normalize_frames_bound svd Y l frames :
  is_Some (R_offset l) →
  (∀ f, f ∈ frames → ∃ X, take_rows alignment_points_markers f = Ok X) →
  ∃ l' frames',
    normalize_frames svd Y l frames = (Ok l', frames') ∧
    length frames' = length frames ∧
    ∀ i f X R t,
      frames !! i = Some f →
      take_rows alignment_points_markers f = Ok X →
      rigid_motion svd X Y = Ok (R, t) →
      frames' !! i = Some (apply_motion f R t).
Proof.
  revert l. induction frames as [|f rest IH]; intros l Hl Hrows.
  - exists l, []. by repeat split.
  - destruct (Hrows f) as [X HX]; [by left|].
    assert (∃ l1 f1, normalize_frame svd Y l f = Ok (l1, f1) ∧ is_Some (R_offset l1) ∧
              ∀ R t, rigid_motion svd X Y = Ok (R, t) → f1 = apply_motion f R t)
      as (l1 & f1 & Hf & Hl1 & Hf1).
    { destruct (rigid_motion svd X Y) as [[R t]|e] eqn:Hr.
      - eexists _, _. split; [by eapply normalize_frame_success|].
        split; [by eexists|]. by intros ?? [= <- <-].
      - destruct l as [[[R0 t0]|] n]; [|by destruct Hl].
        eexists _, _. split; [by eapply normalize_frame_stale|].
        split; [by eexists|]. done. }
    destruct (IH l1 Hl1) as (l' & rest' & Hrest & Hlen & Hi).
    { intros g Hg. apply Hrows. by right. }
    exists l', (f1 :: rest'). cbn [normalize_frames]. rewrite Hf, Hrest.
    split; [done|]. split; [cbn; by rewrite Hlen|].
    intros [|i] g Xg R t Hg HXg Hr; cbn [lookup list_lookup] in Hg |- *.
    + injection Hg as <-. rewrite HX in HXg. injection HXg as <-.
      f_equal. by apply Hf1.
    + by eapply Hi.
Qed.

(** A template and two frames to run the normalizer on: [frame_shifted] is
    the template translated by [(1,2,3)]; on [frame_turned], whose alignment
    markers lie along the y axis, the stand-in SVD reports non-convergence. *)
Definition hand_example : points :=
  [V3 1 0 0; V3 (-1) 0 0; V3 0 0 0; V3 0 1 1].
Definition frame_shifted : points :=
  [V3 (qz 2) (qz 2) (qz 3); V3 0 (qz 2) (qz 3); V3 1 (qz 2) (qz 3); V3 1 (qz 3) (qz 4)].
Definition frame_turned : points :=
  [V3 0 1 0; V3 0 (-1) 0; V3 0 0 0; V3 (qz 5) (qz 6) (qz 7)].

Example frame_shifted_aligns :
  rigid_motion svd_diag [V3 (qz 2) (qz 2) (qz 3); V3 0 (qz 2) (qz 3); V3 1 (qz 2) (qz 3)]
                        [V3 1 0 0; V3 (-1) 0 0; V3 0 0 0]
    = Ok (meye, V3 (-1) (qz (-2)) (qz (-3))).
Proof. qc_eval. Qed.

Example frame_turned_fails :
  rigid_motion svd_diag [V3 0 1 0; V3 0 (-1) 0; V3 0 0 0]
                        [V3 1 0 0; V3 (-1) 0 0; V3 0 0 0]
    = Raise LinAlgError.
Proof. qc_eval. Qed.

(** If the alignment of the very first frame fails, [R] is still unbound when
    the transform is applied: the whole run is aborted by
    [UnboundLocalError], with nothing written. *)
Lemma normalize_positions_first_failure_aborts svd hand p (σ : store) f0 rest Y X0 e :
  σ !! p = Some (f0 :: rest) →
  take_rows alignment_points_markers hand = Ok Y →
  take_rows alignment_points_markers f0 = Ok X0 →
  rigid_motion svd X0 Y = Raise e →
  normalize_positions svd hand p σ = (Raise UnboundLocalError, σ).
Proof.
  intros Hp HY HX0 Hr. rewrite (normalize_positions_frames _ _ _ _ _ _ Hp HY).
  cbn [normalize_frames]. rewrite (normalize_frame_unbound_failure _ _ _ _ _ _ HX0 Hr).
  by rewrite insert_id.
Qed.

(** C1 (what the code does instead). When the alignment of a frame fails
    after an earlier frame was aligned, the failure counter is incremented
    once, but the frame is not left untransformed: it is overwritten with its
    image under the rotation and offset computed for the earlier frame. *)
Theorem normalize_positions_failed_frame_overwritten
    svd hand p (σ : store) f0 f1 Y X0 X1 R t e :
  σ !! p = Some [f0; f1] →
  take_rows alignment_points_markers hand = Ok Y →
  take_rows alignment_points_markers f0 = Ok X0 →
  take_rows alignment_points_markers f1 = Ok X1 →
  rigid_motion svd X0 Y = Ok (R, t) →
  rigid_motion svd X1 Y = Raise e →
  normalize_positions svd hand p σ
    = (Ok (p, 1%nat), <[p := [apply_motion f0 R t; apply_motion f1 R t]]> σ).
Proof.
  intros Hp HY HX0 HX1 Hr0 Hr1.
  rewrite (normalize_positions_frames _ _ _ _ _ _ Hp HY).
  cbn [normalize_frames].
  rewrite (normalize_frame_success _ _ _ _ _ _ _ HX0 Hr0). cbn [error_count].
  by rewrite (normalize_frame_stale _ _ _ _ _ _ _ _ HX1 Hr1).
Qed.

Definition store_example : store := {[ 0%nat := [frame_shifted; frame_turned] ]}.

Lemma normalize_positions_failed_frame_overwritten_witness :
  normalize_positions svd_diag hand_example 0%nat store_example
    = (Ok (0%nat, 1%nat),
       <[0%nat := [apply_motion frame_shifted meye (V3 (-1) (qz (-2)) (qz (-3)));
                   apply_motion frame_turned meye (V3 (-1) (qz (-2)) (qz (-3)))]]>
         store_example).
Proof.
  apply (normalize_positions_failed_frame_overwritten svd_diag hand_example 0%nat
           store_example frame_shifted frame_turned
           [V3 1 0 0; V3 (-1) 0 0; V3 0 0 0]
           [V3 (qz 2) (qz 2) (qz 3); V3 0 (qz 2) (qz 3); V3 1 (qz 2) (qz 3)]
           [V3 0 1 0; V3 0 (-1) 0; V3 0 0 0]
           meye (V3 (-1) (qz (-2)) (qz (-3))) LinAlgError).
  - reflexivity.
  - reflexivity.
  - reflexivity.
  - reflexivity.
  - qc_eval.
  - qc_eval.
Defined.

(** The failed frame after the run, spelled out: it went in as
    [frame_turned] and comes out moved by [(-1,-2,-3)]. *)
Example failed_frame_after_run :
  snd (normalize_positions svd_diag hand_example 0%nat store_example) !! 0%nat
    = Some [ [V3 1 0 0; V3 (-1) 0 0; V3 0 0 0; V3 0 1 1];
             [V3 (-1) (-1) (qz (-3)); V3 (-1) (qz (-3)) (qz (-3));
              V3 (-1) (qz (-2)) (qz (-3)); V3 (qz 4) (qz 4) (qz 4)] ].
Proof. qc_eval. Qed.

(** With the failing frame first, the run is aborted. *)
Example failed_first_frame_aborts :
  normalize_positions svd_diag hand_example 0%nat
      ({[ 0%nat := [frame_turned; frame_shifted] ]} : store)
    = (Raise UnboundLocalError, {[ 0%nat := [frame_turned; frame_shifted] ]}).
Proof.
  apply (normalize_positions_first_failure_aborts svd_diag hand_example 0%nat _
           frame_turned [frame_shifted]
           [V3 1 0 0; V3 (-1) 0 0; V3 0 0 0] [V3 0 1 0; V3 0 (-1) 0; V3 0 0 0] LinAlgError).
  - reflexivity.
  - reflexivity.
  - reflexivity.
  - qc_eval.
Qed.

(** The coordinates of [p.dot(R) + offset], written out. *)
Lemma moved_marker p R t :
  vadd (vmulm p R) t
    = V3 (vx p * vx (row0 R) + vy p * vx (row1 R) + vz p * vx (row2 R) + vx t)
         (vx p * vy (row0 R) + vy p * vy (row1 R) + vz p * vy (row2 R) + vy t)
         (vx p * vz (row0 R) + vy p * vz (row1 R) + vz p * vz (row2 R) + vz t).
Proof. reflexivity. Qed.

(** C10. [normalize_positions] works in place.  When the first frame is
    aligned successfully (so that the run is not aborted), the call returns
    the very reference it was given, the store differs from the initial one
    only at that reference, and there every frame whose alignment succeeded
    holds its transformed coordinates [frame.dot(R) + offset]: it has as many
    markers as before, and the marker that was at [(x, y, z)] is at
    [(x R00 + y R10 + z R20 + t0, x R01 + y R11 + z R21 + t1,
      x R02 + y R12 + z R22 + t2)]. *)
Theorem normalize_positions_in_place svd hand p (σ : store) frames Y :
  σ !! p = Some frames →
  take_rows alignment_points_markers hand = Ok Y →
  (∀ f, f ∈ frames → ∃ X, take_rows alignment_points_markers f = Ok X) →
  (∀ f X, head frames = Some f →
          take_rows alignment_points_markers f = Ok X →
          ∃ R t, rigid_motion svd X Y = Ok (R, t)) →
  ∃ n frames',
    normalize_positions svd hand p σ = (Ok (p, n), <[p := frames']> σ) ∧
    length frames' = length frames ∧
    ∀ i f X R t,
      frames !! i = Some f →
      take_rows alignment_points_markers f = Ok X →
      rigid_motion svd X Y = Ok (R, t) →
      ∃ f' : list vec3,
        frames' !! i = Some f' ∧
        f' = apply_motion f R t ∧
        length f' = length f ∧
        ∀ j q, f !! j = Some q →
          f' !! j
            = Some (V3 (vx q * vx (row0 R) + vy q * vx (row1 R)
                          + vz q * vx (row2 R) + vx t)
                       (vx q * vy (row0 R) + vy q * vy (row1 R)
                          + vz q * vy (row2 R) + vy t)
                       (vx q * vz (row0 R) + vy q * vz (row1 R)
                          + vz q * vz (row2 R) + vz t)).
Proof.
  intros Hp HY Hrows Hfirst.
  rewrite (normalize_positions_frames _ _ _ _ _ _ Hp HY).
  assert (Hmoved : ∀ (f : list vec3) R t,
            length (apply_motion f R t) = length f ∧
            ∀ j q, f !! j = Some q →
              apply_motion f R t !! j
                = Some (V3 (vx q * vx (row0 R) + vy q * vx (row1 R)
                              + vz q * vx (row2 R) + vx t)
                           (vx q * vy (row0 R) + vy q * vy (row1 R)
                              + vz q * vy (row2 R) + vy t)
                           (vx q * vz (row0 R) + vy q * vz (row1 R)
                              + vz q * vz (row2 R) + vz t))).
  { intros f R t. unfold apply_motion, points. rewrite length_fmap.
    split; [done|]. intros j q Hq.
    by rewrite list_lookup_fmap, Hq, <- moved_marker. }
  destruct frames as [|f0 rest].
  - exists 0%nat, []. by repeat split.
  - destruct (Hrows f0) as [X0 HX0]; [by left|].
    destruct (Hfirst f0 X0 eq_refl HX0) as (R & t & Hr0).
    cbn [normalize_frames].
    rewrite (normalize_frame_success _ _ _ _ _ _ _ HX0 Hr0).
    destruct (normalize_frames_bound svd Y (Locals (Some (R, t)) 0) rest)
      as (l' & rest' & Hrest & Hlen & Hi).
    { by eexists. }
    { intros g Hg. apply Hrows. by right. }
    cbn [error_count]. rewrite Hrest.
    exists (error_count l'), (apply_motion f0 R t :: rest').
    split; [done|]. split; [cbn; by rewrite Hlen|].
    intros i g Xg Rg tg Hg HXg Hrg. exists (apply_motion g Rg tg).
    split; [|split; [done|apply Hmoved]].
    destruct i as [|i]; cbn [lookup list_lookup] in Hg |- *.
    + injection Hg as <-. rewrite HX0 in HXg. injection HXg as <-.
      rewrite Hr0 in Hrg. by injection Hrg as <- <-.
    + by eapply Hi.
Qed.

(** The run on [store_example]: the caller's array, which held
    [frame_shifted] in its first frame, holds the template's coordinates
    there afterwards. *)
Lemma normalize_positions_in_place_witness :
  normalize_positions svd_diag hand_example 0%nat store_example
    = (Ok (0%nat, 1%nat),
       <[0%nat := [ [V3 1 0 0; V3 (-1) 0 0; V3 0 0 0; V3 0 1 1];
                    [V3 (-1) (-1) (qz (-3)); V3 (-1) (qz (-3)) (qz (-3));
                     V3 (-1) (qz (-2)) (qz (-3)); V3 (qz 4) (qz 4) (qz 4)] ]]>
         store_example) ∧
  ∃ n frames' f',
    normalize_positions svd_diag hand_example 0%nat store_example
      = (Ok (0%nat, n), <[0%nat := frames']> store_example) ∧
    length frames' = 2%nat ∧
    frames' !! 0%nat = Some f' ∧
    length f' = 4%nat ∧
    f' !! 0%nat = Some (V3 1 0 0) ∧
    f' !! 1%nat = Some (V3 (-1) 0 0) ∧
    f' !! 2%nat = Some (V3 0 0 0) ∧
    f' !! 3%nat = Some (V3 0 1 1).
Proof.
  split; [qc_eval|].
  destruct (normalize_positions_in_place svd_diag hand_example 0%nat store_example
              [frame_shifted; frame_turned] [V3 1 0 0; V3 (-1) 0 0; V3 0 0 0])
    as (n & frames' & Hrun & Hlen & Hframes).
  - reflexivity.
  - reflexivity.
  - intros f Hf. apply elem_of_cons in Hf as [-> | Hf].
    + eexists. reflexivity.
    + apply list_elem_of_singleton in Hf as ->. eexists. reflexivity.
  - intros f X [= <-] [= <-]. exists meye, (V3 (-1) (qz (-2)) (qz (-3))). qc_eval.
  - destruct (Hframes 0%nat frame_shifted
                [V3 (qz 2) (qz 2) (qz 3); V3 0 (qz 2) (qz 3); V3 1 (qz 2) (qz 3)]
                meye (V3 (-1) (qz (-2)) (qz (-3))))
      as (f' & Hf' & _ & Hlen' & Hmarkers).
    + reflexivity.
    + reflexivity.
    + qc_eval.
    + exists n, frames', f'. split; [exact Hrun|]. split; [exact Hlen|].
      split; [exact Hf'|]. split; [exact Hlen'|].
      split; [|split; [|split]].
      * rewrite (Hmarkers 0%nat (V3 (qz 2) (qz 2) (qz 3)) eq_refl). qc_eval.
      * rewrite (Hmarkers 1%nat (V3 0 (qz 2) (qz 3)) eq_refl). qc_eval.
      * rewrite (Hmarkers 2%nat (V3 1 (qz 2) (qz 3)) eq_refl). qc_eval.
      * rewrite (Hmarkers 3%nat (V3 1 (qz 3) (qz 4)) eq_refl). qc_eval.
Defined.

(** ** train_joint_model.py: the network's input and output vectors *)

(** [a.flatten()] of an [N x 3] array: the rows one after the other. *)
Definition flatten (P : points) : list Qc := P ≫= λ p, [vx p; vy p; vz p].

Definition extract_input_features (mocap_sample : points) : list Qc :=
  flatten mocap_sample.

(** [a.reshape(-1, 3)] of a flat array, as [extract_columns] applies it to
    each row of the table: [ValueError] when the size is not a multiple of 3. *)
Fixpoint reshape3 (l : list Qc) : result points :=
  match l with
  | [] => Ok []
  | x :: y :: z :: l' =>
      match reshape3 l' with
      | Ok P => Ok (V3 x y z :: P)
      | Raise e => Raise e
      end
  | _ => Raise ValueError
  end.

(** [config.features_components]: the degrees of freedom kept for each of
    the 15 joints of [hand_features]. *)
Definition features_components : list (list nat) :=
  [ [0; 1; 2]; [1]; [1];
    [0; 1; 2]; [1]; [1];
    [0; 1; 2]; [1]; [1];
    [0; 1; 2]; [1]; [1];
    [0; 1; 2]; [0; 1]; [0] ]%nat.

(** [row[c]] for a row of three scalars. *)
Definition component (p : vec3) (c : nat) : result Qc :=
  match c with
  | 0 => Ok (vx p)
  | 1 => Ok (vy p)
  | 2 => Ok (vz p)
  | _ => Raise IndexError
  end%nat.

(** The loop [for i in range(hand_sample.shape[0])] from row [i] on:
    [flist.append(hand_sample[i, features_components[i]])]. *)
Fixpoint output_rows (table : list (list nat)) (i : nat) (rows : points)
  : result (list (list Qc)) :=
  match rows with
  | [] => Ok []
  | row :: rest =>
      comps ← of_option (table !! i) IndexError;
      sel ← rmapM (component row) comps;
      flist ← output_rows table (S i) rest;
      Ok (sel :: flist)
  end.

Definition extract_output_features (hand_sample : points) : result (list Qc) :=
  flist ← output_rows features_components 0 hand_sample;
  Ok (concat flist).

(** Number of scalars the first [n] joints contribute. *)
Definition components_upto (table : list (list nat)) (i n : nat) : nat :=
  sum_list (length <$> take n (drop i table)).

Lemma flatten_cons p (P : points) :
  flatten (p :: P) = vx p :: vy p :: vz p :: flatten P.
Proof. reflexivity. Qed.

Lemma flatten_length (P : points) : length (flatten P) = (3 * length P)%nat.
Proof.
  induction P as [|p P IH]; [done|].
  rewrite flatten_cons. cbn [length]. rewrite IH. lia.
Qed.

Lemma flatten_lookup (P : points) i p :
  P !! i = Some p →
  flatten P !! (3 * i)%nat = Some (vx p) ∧
  flatten P !! (3 * i + 1)%nat = Some (vy p) ∧
  flatten P !! (3 * i + 2)%nat = Some (vz p).
Proof.
  revert i. induction P as [|p0 P IH]; intros i Hi; [done|].
  rewrite flatten_cons. destruct i as [|i].
  - cbn in Hi. injection Hi as ->. done.
  - cbn in Hi. destruct (IH i Hi) as (H0 & H1 & H2).
    replace (3 * S i)%nat with (S (S (S (3 * i)))) by lia.
    cbn [lookup list_lookup Nat.add]. done.
Qed.

Lemma reshape3_flatten (P : points) : reshape3 (flatten P) = Ok P.
Proof.
  induction P as [|[x y z] P IH]; [done|].
  rewrite flatten_cons. cbn [reshape3 vx vy vz]. by rewrite IH.
Qed.

Lemma reshape3_inv P : ∀ l, reshape3 l = Ok P → flatten P = l.
Proof.
  induction P as [|p P IH]; intros l.
  - destruct l as [|x [|y [|z l]]]; cbn [reshape3]; try done.
    by destruct (reshape3 l).
  - destruct l as [|x [|y [|z l]]]; cbn [reshape3]; try done.
    destruct (reshape3 l) as [P'|] eqn:Hl; [|done].
    intros [= <- <-]. rewrite flatten_cons. cbn [vx vy vz].
    by rewrite (IH l Hl).
Qed.

Lemma reshape3_raises l e :
  reshape3 l = Raise e → e = ValueError ∧ (length l mod 3 ≠ 0)%nat.
Proof.
  remember (length l) as n eqn:Hn. revert l Hn e.
  induction n as [n IH] using lt_wf_ind. intros l -> e.
  destruct l as [|x [|y [|z l]]]; cbn [reshape3]; try done.
  - intros [= <-]. done.
  - intros [= <-]. done.
  - destruct (reshape3 l) as [P'|e'] eqn:Hl; [done|].
    intros [= <-].
    destruct (IH (length l) ltac:(cbn [length]; lia) l eq_refl e' Hl) as [-> Hmod].
    split; [done|].
    cbn [length]. replace (S (S (S (length l)))) with (length l + 1 * 3)%nat by lia.
    by rewrite Nat.Div0.mod_add.
Qed.

Lemma rmapM_component_ok row comps :
  Forall (λ c, c < 3)%nat comps →
  ∃ sel, rmapM (component row) comps = Ok sel ∧ length sel = length comps.
Proof.
  induction 1 as [|c comps Hc _ (sel & Hsel & Hlen)]; [by exists []|].
  exists (match c with 0 => vx row | 1 => vy row | _ => vz row end%nat :: sel).
  cbn [rmapM]. rewrite Hsel. cbn [length]. rewrite Hlen.
  destruct c as [|[|[|c]]]; cbn [component]; (done || lia).
Qed.

Lemma output_rows_ok table rows : ∀ i,
  Forall (Forall (λ c, c < 3)%nat) table →
  (i + length rows ≤ length table)%nat →
  ∃ flist, output_rows table i rows = Ok flist ∧
           length (concat flist) = components_upto table i (length rows).
Proof.
  induction rows as [|row rows IH]; intros i Htable Hlen.
  - exists []. done.
  - cbn [length] in Hlen.
    destruct (table !! i) as [comps|] eqn:Hi;
      [|apply lookup_ge_None in Hi; lia].
    assert (Hcomps : Forall (λ c, c < 3)%nat comps).
    { eapply Forall_lookup_1 in Htable; [exact Htable|exact Hi]. }
    destruct (rmapM_component_ok row comps Hcomps) as (sel & Hsel & Hsl).
    destruct (IH (S i) Htable ltac:(lia)) as (flist & Hflist & Hfl).
    exists (sel :: flist). split.
    + cbn [output_rows]. rewrite Hi. cbn [of_option mbind result_bind rbind].
      rewrite Hsel, Hflist. done.
    + cbn [concat length]. rewrite length_app, Hsl, Hfl.
      unfold components_upto. rewrite (drop_S _ _ _ Hi).
      cbn [take fmap list_fmap sum_list sum_list_with]. done.
Qed.

Lemma output_rows_overflow table rows : ∀ i,
  Forall (Forall (λ c, c < 3)%nat) table →
  (i ≤ length table < i + length rows)%nat →
  output_rows table i rows = Raise IndexError.
Proof.
  induction rows as [|row rows IH]; intros i Htable Hlen.
  - cbn [length] in Hlen. lia.
  - cbn [length] in Hlen. cbn [output_rows].
    destruct (table !! i) as [comps|] eqn:Hi; [|done].
    cbn [of_option mbind result_bind rbind].
    assert (Hcomps : Forall (λ c, c < 3)%nat comps).
    { eapply Forall_lookup_1 in Htable; [exact Htable|exact Hi]. }
    destruct (rmapM_component_ok row comps Hcomps) as (sel & -> & _).
    apply lookup_lt_Some in Hi.
    by rewrite (IH (S i) Htable ltac:(lia)).
Qed.

(** X4. Layout of the input vector: a sample of [N] markers becomes a vector
    of length [3N], and marker [i] occupies the entries [3i], [3i+1], [3i+2]
    with its x, y and z. *)
Theorem extract_input_features_layout (mocap_sample : points) i p :
  mocap_sample !! i = Some p →
  length (extract_input_features mocap_sample) = (3 * length mocap_sample)%nat ∧
  extract_input_features mocap_sample !! (3 * i)%nat = Some (vx p) ∧
  extract_input_features mocap_sample !! (3 * i + 1)%nat = Some (vy p) ∧
  extract_input_features mocap_sample !! (3 * i + 2)%nat = Some (vz p).
Proof.
  intros Hi. split; [apply flatten_length|by apply flatten_lookup].
Qed.

Lemma extract_input_features_layout_witness :
  length (extract_input_features frame_shifted) = (3 * length frame_shifted)%nat ∧
  extract_input_features frame_shifted !! (3 * 1)%nat = Some 0 ∧
  extract_input_features frame_shifted !! (3 * 1 + 1)%nat = Some (qz 2) ∧
  extract_input_features frame_shifted !! (3 * 1 + 2)%nat = Some (qz 3).
Proof.
  apply (extract_input_features_layout frame_shifted 1 (V3 0 (qz 2) (qz 3))).
  reflexivity.
Defined.

(** X5. Reshaping to rows of three is the exact inverse of flattening: a flat
    vector reshapes to [P] exactly when it is the flattening of [P], and the
    reshape raises exactly when the length is not a multiple of 3. *)
Theorem reshape3_inverts_flatten (l : list Qc) :
  (∀ P, reshape3 l = Ok P ↔ extract_input_features P = l) ∧
  ((∃ e, reshape3 l = Raise e) ↔ (length l mod 3 ≠ 0)%nat).
Proof.
  split.
  - intros P. split; [apply reshape3_inv|].
    intros <-. apply reshape3_flatten.
  - split.
    + intros [e He]. by apply reshape3_raises in He as [_ ?].
    + intros Hmod. destruct (reshape3 l) as [P|e] eqn:Hl; [|by exists e].
      apply reshape3_inv in Hl as <-. rewrite flatten_length in Hmod.
      exfalso. apply Hmod. rewrite Nat.mul_comm. apply Nat.Div0.mod_mul.
Qed.

(** The angles kept for one joint: the coordinates of its row that its entry
    of [features_components] lists, in the order listed. *)
Definition joint_angles (row : vec3) (comps : list nat) : list Qc :=
  (λ c, match c with 0 => vx row | 1 => vy row | _ => vz row end%nat) <$> comps.

Lemma rmapM_component_entries row comps :
  Forall (λ c, c < 3)%nat comps →
  rmapM (component row) comps = Ok (joint_angles row comps).
Proof.
  induction 1 as [|c comps Hc _ IH]; [done|].
  cbn [rmapM]. rewrite IH.
  destruct c as [|[|[|c]]]; cbn [component]; (done || lia).
Qed.

Lemma output_rows_entries table rows : ∀ i,
  Forall (Forall (λ c, c < 3)%nat) table →
  (i + length rows ≤ length table)%nat →
  output_rows table i rows = Ok (zip_with joint_angles rows (drop i table)).
Proof.
  induction rows as [|row rows IH]; intros i Htable Hlen; [done|].
  cbn [length] in Hlen.
  destruct (table !! i) as [comps|] eqn:Hi;
    [|apply lookup_ge_None in Hi; lia].
  assert (Hcomps : Forall (λ c, c < 3)%nat comps).
  { eapply Forall_lookup_1 in Htable; [exact Htable|exact Hi]. }
  cbn [output_rows]. rewrite Hi. cbn [of_option mbind result_bind rbind].
  rewrite (rmapM_component_entries row comps Hcomps).
  rewrite (IH (S i) Htable ltac:(lia)).
  by rewrite (drop_S _ _ _ Hi).
Qed.

(** A hand sample whose joints can be told apart: joint [k] has the angles
    [(10k+1, 10k+2, 10k+3)]. *)
Definition hand_sample_example : points :=
  [ V3 (qz 1) (qz 2) (qz 3); V3 (qz 11) (qz 12) (qz 13);
    V3 (qz 21) (qz 22) (qz 23); V3 (qz 31) (qz 32) (qz 33);
    V3 (qz 41) (qz 42) (qz 43); V3 (qz 51) (qz 52) (qz 53);
    V3 (qz 61) (qz 62) (qz 63); V3 (qz 71) (qz 72) (qz 73);
    V3 (qz 81) (qz 82) (qz 83); V3 (qz 91) (qz 92) (qz 93);
    V3 (qz 101) (qz 102) (qz 103); V3 (qz 111) (qz 112) (qz 113);
    V3 (qz 121) (qz 122) (qz 123); V3 (qz 131) (qz 132) (qz 133);
    V3 (qz 141) (qz 142) (qz 143) ].

(** X6. The output vector of a hand sample with at most 15 joints holds, joint
    after joint, the coordinates that [features_components] lists for the
    joint (0 for x, 1 for y, 2 for z), and nothing else.  For the 15 joints
    of [hand_features] these are the 26 entries: x, y, z of joints 0, 3, 6, 9
    and 12; y of joints 1, 2, 4, 5, 7, 8, 10 and 11; x, y of joint 13; x of
    joint 14. *)
Theorem extract_output_features_entries (hand_sample : points) :
  (length hand_sample ≤ 15)%nat →
  ∃ out,
    extract_output_features hand_sample = Ok out ∧
    out = concat (zip_with joint_angles hand_sample features_components) ∧
    length out = components_upto features_components 0 (length hand_sample) ∧
    ∀ j0 j1 j2 j3 j4 j5 j6 j7 j8 j9 j10 j11 j12 j13 j14,
      hand_sample
        = [j0; j1; j2; j3; j4; j5; j6; j7; j8; j9; j10; j11; j12; j13; j14] →
      out =
        [ vx j0; vy j0; vz j0; vy j1; vy j2; vx j3; vy j3; vz j3; vy j4;
          vy j5; vx j6; vy j6; vz j6; vy j7; vy j8; vx j9; vy j9; vz j9;
          vy j10; vy j11; vx j12; vy j12; vz j12; vx j13; vy j13; vx j14 ].
Proof.
  intros Hlen.
  assert (Htable : Forall (Forall (λ c, c < 3)%nat) features_components)
    by repeat constructor.
  destruct (output_rows_ok features_components hand_sample 0 Htable Hlen)
    as (flist & Hf & Hl).
  pose proof (output_rows_entries features_components hand_sample 0 Htable Hlen)
    as He.
  rewrite Hf in He. injection He as ->.
  exists (concat (zip_with joint_angles hand_sample features_components)).
  unfold extract_output_features. rewrite Hf.
  split; [done|]. split; [done|]. split; [done|].
  intros j0 j1 j2 j3 j4 j5 j6 j7 j8 j9 j10 j11 j12 j13 j14 ->.
  assert (Hrun :
    extract_output_features
      [j0; j1; j2; j3; j4; j5; j6; j7; j8; j9; j10; j11; j12; j13; j14]
    = Ok [ vx j0; vy j0; vz j0; vy j1; vy j2; vx j3; vy j3; vz j3; vy j4;
           vy j5; vx j6; vy j6; vz j6; vy j7; vy j8; vx j9; vy j9; vz j9;
           vy j10; vy j11; vx j12; vy j12; vz j12; vx j13; vy j13; vx j14 ])
    by reflexivity.
  unfold extract_output_features in Hrun. rewrite Hf in Hrun.
  exact (f_equal (λ r, match r with Ok a => a | Raise _ => [] end) Hrun).
Qed.

Lemma extract_output_features_entries_witness :
  extract_output_features hand_sample_example
    = Ok
        [ qz 1; qz 2; qz 3; qz 12; qz 22; qz 31; qz 32; qz 33; qz 42; qz 52;
          qz 61; qz 62; qz 63; qz 72; qz 82; qz 91; qz 92; qz 93; qz 102;
          qz 112; qz 121; qz 122; qz 123; qz 131; qz 132; qz 141 ] ∧
  ∃ out,
    extract_output_features hand_sample_example = Ok out ∧
    out =
        [ qz 1; qz 2; qz 3; qz 12; qz 22; qz 31; qz 32; qz 33; qz 42; qz 52;
          qz 61; qz 62; qz 63; qz 72; qz 82; qz 91; qz 92; qz 93; qz 102;
          qz 112; qz 121; qz 122; qz 123; qz 131; qz 132; qz 141 ].
Proof.
  split; [qc_eval|].
  destruct (extract_output_features_entries hand_sample_example)
    as (out & Hout & _ & _ & Hentries).
  - vm_compute. lia.
  - exists out. split; [exact Hout|].
    exact (Hentries _ _ _ _ _ _ _ _ _ _ _ _ _ _ _ eq_refl).
Defined.

(** X7. A hand sample with more than 15 joints has no entry in
    [features_components] for joint 15: the extraction raises [IndexError]. *)
Theorem extract_output_features_too_many_joints (hand_sample : points) :
  (15 < length hand_sample)%nat →
  extract_output_features hand_sample = Raise IndexError.
Proof.
  intros Hlen. unfold extract_output_features.
  rewrite (output_rows_overflow features_components hand_sample 0).
  - done.
  - repeat constructor.
  - cbn [length features_components]. lia.
Qed.

Lemma extract_output_features_too_many_joints_witness :
  extract_output_features (replicate 16 vzero) = Raise IndexError.
Proof.
  apply (extract_output_features_too_many_joints (replicate 16 vzero)).
  vm_compute. lia.
Defined.

(** ** dataset.py: pre_process and split_dataset *)

(** A [float32] cell of a table read from CSV: a number, or NaN for a missing
    value. *)
Inductive cell :=
  | Num (q : Qc)
  | NaN.

Global Instance cell_eq_dec : EqDecision cell.
Proof. solve_decision. Defined.

(** An array of shape [(rows, items, 3)]. *)
Definition array3 : Type := list (list (list cell)).

(** [c != c], true of NaN only. *)
Definition cell_ne_self (c : cell) : bool :=
  match c with
  | NaN => true
  | Num _ => false
  end.

(** [c > k]; a comparison with NaN is false. *)
Definition cell_gt (c : cell) (k : Qc) : bool :=
  match c with
  | Num q => bool_decide (k < q)
  | NaN => false
  end.

Definition cell_sub (c : cell) (k : Qc) : cell :=
  match c with
  | Num q => Num (q - k)
  | NaN => NaN
  end.

Definition cell_div (c : cell) (k : Qc) : cell :=
  match c with
  | Num q => Num (q / k)
  | NaN => NaN
  end.

(** [np.sum(frame != frame)] over the two inner axes of one row. *)
Definition count_nan (frame : list (list cell)) : nat :=
  sum_list ((λ c, if cell_ne_self c then 1%nat else 0%nat) <$> concat frame).

(** [np.sum(a != a, axis=(1,2)) == 0] *)
Definition nan_free_rows (a : array3) : list bool :=
  (λ frame, bool_decide (count_nan frame = 0%nat)) <$> a.

(** [a[mask]] with a boolean mask over the first axis; [IndexError] when the
    mask and the array differ in length. *)
Fixpoint bool_index {A} (mask : list bool) (a : list A) : result (list A) :=
  match mask, a with
  | [], [] => Ok []
  | b :: mask', x :: a' =>
      match bool_index mask' a' with
      | Ok r => Ok (if b then x :: r else r)
      | Raise e => Raise e
      end
  | _, _ => Raise IndexError
  end.

(** An elementwise operation on an array of shape [(rows, items, 3)]. *)
Definition map_cells (f : cell → cell) (a : array3) : array3 :=
  fmap (M:=list) (fmap (M:=list) (fmap (M:=list) f)) a.

(** [a[a > 180] = a[a > 180] - 360] on one cell. *)
Definition wrap_angle (c : cell) : cell :=
  if cell_gt c (qz 180) then cell_sub c (qz 360) else c.

Definition pre_process (positions_hand orientations_hand positions_mocap : array3)
  : result (array3 * array3 * array3) :=
  let indices := nan_free_rows positions_mocap in
  positions_hand ← bool_index indices positions_hand;
  orientations_hand ← bool_index indices orientations_hand;
  positions_mocap ← bool_index indices positions_mocap;
  let orientations_hand := map_cells wrap_angle orientations_hand in
  let orientations_hand := map_cells (λ c, cell_div c (qz 180)) orientations_hand in
  Ok (positions_hand, orientations_hand, positions_mocap).

(** What [pre_process] does to one angle, and to the angles of one row. *)
Definition normalize_angle (c : cell) : cell := cell_div (wrap_angle c) (qz 180).

Definition normalize_angles (frame : list (list cell)) : list (list cell) :=
  fmap (M:=list) (fmap (M:=list) normalize_angle) frame.

(** [int(q)]: truncation toward zero. *)
Definition py_int (q : Qc) : Z := (Qnum q ÷ Zpos (Qden q))%Z.

(** [a[:k]] and [a[k:]]: a negative [k] counts from the end, and the bounds
    are clamped to the array. *)
Definition slice_stop (k : Z) (n : nat) : nat :=
  if decide (k < 0)%Z then Z.to_nat (Z.of_nat n + k) else Z.to_nat k.

Definition slice_to {A} (k : Z) (a : list A) : list A :=
  take (slice_stop k (length a)) a.

Definition slice_from {A} (k : Z) (a : list A) : list A :=
  drop (slice_stop k (length a)) a.

(** [X.shape[0] * split_point] is a product of double-precision numbers,
    rounded to the nearest one.  The rounding is the parameter [fl] of
    [split_dataset]; [round_double] is the rounding itself (to nearest, ties
    to even, 53 significant bits; overflow and subnormal numbers left
    aside). *)
Definition round_half_even (q : Q) : Z :=
  let f := Qfloor q in
  match (q - inject_Z f ?= 1 # 2)%Q with
  | Lt => f
  | Gt => (f + 1)%Z
  | Eq => if Z.even f then f else (f + 1)%Z
  end.

(** For [q > 0], the exponent [e] with [2^e <= q < 2^(e+1)]. *)
Definition binade (q : Q) : Z :=
  let e0 := (Z.log2 (Qnum q) - Z.log2 (Zpos (Qden q)))%Z in
  if Qle_bool (2 ^ e0)%Q q then e0 else (e0 - 1)%Z.

Definition round_double (q : Qc) : Qc :=
  if decide (q = 0) then 0
  else
    let a := Qabs q in
    let ulp := (2 ^ (binade a - 52))%Q in
    Q2Qc (inject_Z (Z.sgn (Qnum q) * round_half_even (a / ulp)) * ulp)%Q.

Definition split_dataset {A B} (fl : Qc → Qc) (X : list A) (Y : list B)
    (split_point : Qc) : list A * list B * list A * list B :=
  let split_index := py_int (fl (qz (Z.of_nat (length X)) * split_point)) in
  let X_tr := slice_to split_index X in
  let Y_tr := slice_to split_index Y in
  let X_va := slice_from split_index X in
  let Y_va := slice_from split_index Y in
  (X_tr, Y_tr, X_va, Y_va).

(** *** Row filter *)

Definition nan_free (frame : list (list cell)) : bool :=
  bool_decide (count_nan frame = 0%nat).

Lemma bool_index_length {A} (mask : list bool) (a : list A) r :
  bool_index mask a = Ok r → length mask = length a.
Proof.
  revert a r. induction mask as [|b mask IH]; intros [|x a] r; cbn [bool_index]; try done.
  destruct (bool_index mask a) as [r'|] eqn:Hr; [|done].
  intros _. cbn [length]. f_equal. by eapply IH.
Qed.

Lemma bool_index_zip {A B} (f : B → bool) (a : list A) (pm : list B) :
  length a = length pm →
  bool_index (f <$> pm) a = Ok ((filter (λ x, f x.2) (zip a pm)).*1).
Proof.
  revert a. induction pm as [|m pm IH]; intros [|x a] Hlen; try done.
  cbn [fmap list_fmap bool_index zip zip_with]. cbn [length] in Hlen.
  rewrite IH by lia. rewrite filter_cons.
  destruct (decide _) as [Hd|Hd]; cbn [snd] in Hd; destruct (f m); done.
Qed.

Lemma bool_index_mismatch {A B} (f : B → bool) (a : list A) (pm : list B) :
  length a ≠ length pm → bool_index (f <$> pm) a = Raise IndexError.
Proof.
  revert a. induction pm as [|m pm IH]; intros [|x a] Hlen; try done.
  cbn [fmap list_fmap bool_index]. cbn [length] in Hlen.
  rewrite IH by lia. done.
Qed.

Lemma bool_index_self {B} (f : B → bool) (pm : list B) :
  bool_index (f <$> pm) pm = Ok (filter (λ x, f x) pm).
Proof.
  induction pm as [|m pm IH]; [done|].
  cbn [fmap list_fmap bool_index]. rewrite IH, filter_cons.
  destruct (decide _) as [Hd|Hd]; destruct (f m); done.
Qed.

Lemma bool_index_all {A B} (f : B → bool) (a : list A) (pm : list B) :
  length a = length pm → Forall (λ x, f x) pm →
  bool_index (f <$> pm) a = Ok a.
Proof.
  intros Hlen Hall. revert a Hlen. induction Hall as [|m pm Hm _ IH]; intros [|x a] Hlen; try done.
  cbn [fmap list_fmap bool_index]. cbn [length] in Hlen.
  rewrite IH by lia. by destruct (f m).
Qed.

Ltac qc_to_q :=
  unfold Qcle, Qclt, Qcdiv, Qcminus in *;
  unfold Qcmult, Qcplus, Qcopp, Qcinv, qz, Q2Qc in *;
  cbn [this] in *;
  rewrite ?Qred_correct in *;
  unfold inject_Z in *;
  cbv [Qinv Qnum Qden] in *.

Lemma filter_zip_snd {A B} (f : B → bool) (a : list A) (pm : list B) :
  length a = length pm →
  (filter (λ x, f x.2) (zip a pm)).*2 = filter (λ m, f m) pm.
Proof.
  revert a. induction pm as [|m pm IH]; intros [|x a] Hlen; try done.
  cbn [zip zip_with]. cbn [length] in Hlen. rewrite !filter_cons.
  cbn [snd]. destruct (decide (f m)); cbn [fmap list_fmap snd];
    rewrite IH by lia; done.
Qed.

Lemma map_cells_compose f g (a : array3) :
  map_cells f (map_cells g a) = map_cells (f ∘ g) a.
Proof.
  unfold map_cells, array3 in *. rewrite <- list_fmap_compose.
  apply list_fmap_ext. intros _ frame _. cbn [compose].
  rewrite <- list_fmap_compose.
  apply list_fmap_ext. intros _ row _. cbn [compose].
  by rewrite <- list_fmap_compose.
Qed.

Lemma map_cells_length f (a : array3) : length (map_cells f a) = length a.
Proof. unfold map_cells. by rewrite length_fmap. Qed.

Lemma pre_process_filtered ph oh pm :
  length ph = length pm → length oh = length pm →
  pre_process ph oh pm =
    Ok ((filter (λ x, nan_free x.2) (zip ph pm)).*1,
        map_cells normalize_angle ((filter (λ x, nan_free x.2) (zip oh pm)).*1),
        filter (λ m, nan_free m) pm).
Proof.
  intros Hph Hoh. unfold pre_process, nan_free_rows.
  change (λ frame, bool_decide (count_nan frame = 0%nat)) with nan_free.
  rewrite (bool_index_zip nan_free ph pm Hph). cbn [mbind result_bind rbind].
  rewrite (bool_index_zip nan_free oh pm Hoh). cbn [mbind result_bind rbind].
  rewrite (bool_index_self nan_free pm). cbn [mbind result_bind rbind].
  by rewrite map_cells_compose.
Qed.

Lemma pre_process_inv ph oh pm ph' oh' pm' :
  pre_process ph oh pm = Ok (ph', oh', pm') →
  length ph = length pm ∧ length oh = length pm.
Proof.
  unfold pre_process. intros Hp.
  destruct (bool_index (nan_free_rows pm) ph) as [a|] eqn:Ha; [|done].
  destruct (bool_index (nan_free_rows pm) oh) as [b|] eqn:Hb; [|done].
  apply bool_index_length in Ha, Hb.
  unfold nan_free_rows in Ha, Hb. rewrite length_fmap in Ha, Hb. done.
Qed.

Lemma count_nan_zero frame row c :
  count_nan frame = 0%nat → row ∈ frame → c ∈ row → c ≠ NaN.
Proof.
  unfold count_nan. intros Hc Hrow Hcell ->.
  assert (Hin : NaN ∈ concat frame).
  { apply list_elem_of_In, in_concat. exists row.
    split; by apply list_elem_of_In. }
  revert Hc Hin. generalize (concat frame). intros l.
  induction l as [|c l IH]; [by intros _ ?%elem_of_nil|].
  rewrite fmap_cons. intros Hsum [<-|Hin]%elem_of_cons.
  - simpl in Hsum. discriminate Hsum.
  - apply IH; [|done]. simpl in Hsum. by apply Nat.eq_add_0 in Hsum as [_ ?].
Qed.

(** *** Slices *)

Lemma py_int_bounds (q : Qc) (n : nat) :
  0 ≤ q → q ≤ qz (Z.of_nat n) → (0 ≤ py_int q ≤ Z.of_nat n)%Z.
Proof.
  unfold py_int. intros H0 Hn.
  assert (Hnum : (0 ≤ Qnum q)%Z).
  { unfold Qcle, Qle in H0. change (this 0) with (0#1)%Q in H0.
    cbn [Qnum Qden] in H0. lia. }
  assert (Hup : (Qnum q ≤ Z.of_nat n * Zpos (Qden q))%Z).
  { unfold Qcle, qz, Q2Qc in Hn. cbn [this] in Hn.
    rewrite Qred_correct in Hn. unfold Qle in Hn. cbn [Qnum Qden inject_Z] in Hn. lia. }
  split.
  - apply Z.quot_pos; lia.
  - rewrite Z.quot_div_nonneg by lia.
    apply Z.div_le_upper_bound; lia.
Qed.

Lemma zip_fmap_fst_snd {A A' B} (g : A → A') (l : list (A * B)) :
  zip (g <$> l.*1) (l.*2) = prod_map g id <$> l.
Proof. induction l as [|[a b] l IH]; [done|]. cbn. by f_equal. Qed.

Lemma normalize_angle_Num v :
  normalize_angle (Num v)
    = Num ((if bool_decide (qz 180 < v) then v - qz 360 else v) / qz 180).
Proof.
  unfold normalize_angle, wrap_angle, cell_gt.
  by destruct (bool_decide (qz 180 < v)).
Qed.

(** Sample tables: two hand joints and two markers per row; the second row
    has a marker that the motion capture lost. *)
Definition hand_rows : array3 :=
  [ [[Num 1; Num 0; Num 0]; [Num 0; NaN; Num 0]];
    [[Num 0; Num 1; Num 0]; [Num 0; Num 0; Num 1]];
    [[Num 1; Num 1; Num 0]; [Num 0; Num 1; Num 1]] ].

Definition angle_rows : array3 :=
  [ [[Num (qz 90); Num (qz 270); Num (qz 180)]; [Num 0; Num (qz (-90)); NaN]];
    [[Num (qz 10); Num (qz 20); Num (qz 30)]; [Num 0; Num 0; Num 0]];
    [[Num (qz 360); Num (qz 181); Num (qz 720)]; [Num 0; Num 0; Num 0]] ].

Definition mocap_rows : array3 :=
  [ [[Num 1; Num (qz 2); Num (qz 3)]; [Num 0; Num 0; Num 0]];
    [[Num 1; NaN; Num (qz 3)]; [Num 0; Num 0; Num 0]];
    [[Num (qz 4); Num (qz 5); Num (qz 6)]; [Num 1; Num 1; Num 1]] ].

(** X8. With tables of equal length, [pre_process] returns, keeps exactly the
    rows whose motion-capture frame has no NaN, in their order, and keeps the
    three tables aligned row by row; the positions are unchanged and every
    angle of a kept row goes through [normalize_angle].  NaNs of the hand
    tables do not count. *)
Theorem pre_process_keeps_rows_paired ph oh pm :
  length ph = length pm → length oh = length pm →
  ∃ ph' oh' pm',
    pre_process ph oh pm = Ok (ph', oh', pm') ∧
    pm' = filter (λ m, nan_free m) pm ∧
    zip ph' pm' = filter (λ x, nan_free x.2) (zip ph pm) ∧
    zip oh' pm'
      = prod_map normalize_angles id
          <$> filter (λ x, nan_free x.2) (zip oh pm).
Proof.
  intros Hph Hoh. eexists _, _, _.
  split; [by apply pre_process_filtered|]. split; [done|]. split.
  - rewrite <- (filter_zip_snd nan_free ph pm Hph). apply zip_fst_snd.
  - rewrite <- (filter_zip_snd nan_free oh pm Hoh).
    apply (zip_fmap_fst_snd normalize_angles).
Qed.

Lemma pre_process_keeps_rows_paired_witness :
  ∃ ph' oh' pm',
    pre_process hand_rows angle_rows mocap_rows = Ok (ph', oh', pm') ∧
    pm' = filter (λ m, nan_free m) mocap_rows ∧
    zip ph' pm' = filter (λ x, nan_free x.2) (zip hand_rows mocap_rows) ∧
    zip oh' pm'
      = prod_map normalize_angles id
          <$> filter (λ x, nan_free x.2) (zip angle_rows mocap_rows).
Proof.
  apply (pre_process_keeps_rows_paired hand_rows angle_rows mocap_rows);
    reflexivity.
Defined.

Lemma pre_process_lengths ph oh pm ph' oh' pm' :
  pre_process ph oh pm = Ok (ph', oh', pm') →
  length ph' = length pm' ∧ length oh' = length pm'.
Proof.
  intros Hp. destruct (pre_process_inv _ _ _ _ _ _ Hp) as [Hph Hoh].
  rewrite (pre_process_filtered _ _ _ Hph Hoh) in Hp.
  injection Hp as <- <- <-. split.
  - rewrite <- (filter_zip_snd nan_free ph pm Hph). by rewrite !length_fmap.
  - rewrite map_cells_length, <- (filter_zip_snd nan_free oh pm Hoh).
    by rewrite !length_fmap.
Qed.

(** X9. Whatever [pre_process] returns has three tables of the same length,
    and no NaN is left in the motion-capture table. *)
Theorem pre_process_no_nan_left ph oh pm ph' oh' pm' :
  pre_process ph oh pm = Ok (ph', oh', pm') →
  length ph' = length pm' ∧ length oh' = length pm' ∧
  ∀ frame row c, frame ∈ pm' → row ∈ frame → c ∈ row → c ≠ NaN.
Proof.
  intros Hp. destruct (pre_process_lengths _ _ _ _ _ _ Hp) as [Hph' Hoh'].
  split; [done|]. split; [done|].
  destruct (pre_process_inv _ _ _ _ _ _ Hp) as [Hph Hoh].
  rewrite (pre_process_filtered _ _ _ Hph Hoh) in Hp.
  injection Hp as _ _ <-.
  intros frame row c [Hfree _]%list_elem_of_filter.
  apply count_nan_zero. unfold nan_free in Hfree.
  by apply bool_decide_unpack in Hfree.
Qed.

Lemma pre_process_no_nan_left_witness :
  length (take 1 hand_rows ++ drop 2 hand_rows)
    = length (take 1 mocap_rows ++ drop 2 mocap_rows) ∧
  length (map_cells normalize_angle (take 1 angle_rows ++ drop 2 angle_rows))
    = length (take 1 mocap_rows ++ drop 2 mocap_rows) ∧
  ∀ frame row c,
    frame ∈ take 1 mocap_rows ++ drop 2 mocap_rows → row ∈ frame → c ∈ row →
    c ≠ NaN.
Proof.
  apply (pre_process_no_nan_left hand_rows angle_rows mocap_rows
           (take 1 hand_rows ++ drop 2 hand_rows)
           (map_cells normalize_angle (take 1 angle_rows ++ drop 2 angle_rows))
           (take 1 mocap_rows ++ drop 2 mocap_rows)).
  qc_eval.
Defined.

(** X10. The angle normalisation lands in [-1, 1] exactly for the angles
    between -180 and 540 degrees: above 180 one turn is subtracted, and one
    turn only. *)
Theorem normalize_angle_range (v : Qc) :
  ∃ w, normalize_angle (Num v) = Num w ∧
       (-1 ≤ w ∧ w ≤ 1 ↔ qz (-180) ≤ v ∧ v ≤ qz 540).
Proof.
  rewrite normalize_angle_Num. eexists. split; [reflexivity|].
  destruct (bool_decide (qz 180 < v)) eqn:Hgt.
  - apply bool_decide_eq_true in Hgt. qc_to_q. split; intros [? ?]; split; lra.
  - apply bool_decide_eq_false in Hgt. apply Qcnot_lt_le in Hgt.
    qc_to_q. split; intros [? ?]; split; lra.
Qed.

(** X11. [pre_process] applied to its own result (as [train_marker_model.py]
    does) keeps every row and every position, but normalises the angles a
    second time. *)
Theorem pre_process_twice ph oh pm ph' oh' pm' :
  pre_process ph oh pm = Ok (ph', oh', pm') →
  pre_process ph' oh' pm' = Ok (ph', map_cells normalize_angle oh', pm').
Proof.
  intros Hp.
  destruct (pre_process_lengths _ _ _ _ _ _ Hp) as [Hph' Hoh'].
  destruct (pre_process_inv _ _ _ _ _ _ Hp) as [Hph Hoh].
  rewrite (pre_process_filtered _ _ _ Hph Hoh) in Hp.
  injection Hp as _ _ Hpm'.
  assert (Hall : Forall (λ m, nan_free m) pm').
  { rewrite <- Hpm'. apply Forall_forall. by intros m [? _]%list_elem_of_filter. }
  clear Hpm'.
  unfold pre_process, nan_free_rows.
  change (λ frame, bool_decide (count_nan frame = 0%nat)) with nan_free.
  rewrite (bool_index_all nan_free ph' pm' Hph' Hall).
  rewrite (bool_index_all nan_free oh' pm' Hoh' Hall).
  rewrite (bool_index_all nan_free pm' pm' eq_refl Hall).
  cbn [mbind result_bind rbind]. by rewrite map_cells_compose.
Qed.

Lemma pre_process_twice_witness :
  pre_process (take 1 hand_rows ++ drop 2 hand_rows)
      (map_cells normalize_angle (take 1 angle_rows ++ drop 2 angle_rows))
      (take 1 mocap_rows ++ drop 2 mocap_rows)
    = Ok (take 1 hand_rows ++ drop 2 hand_rows,
          map_cells normalize_angle
            (map_cells normalize_angle (take 1 angle_rows ++ drop 2 angle_rows)),
          take 1 mocap_rows ++ drop 2 mocap_rows).
Proof.
  apply (pre_process_twice hand_rows angle_rows mocap_rows).
  qc_eval.
Defined.


(** The double nearest to 0.7, and ten rows to split. *)
Definition double_0_7 : Qc := Q2Qc (3152519739159347 # 4503599627370496).

Definition ten_rows : list nat := seq 0 10.

(** X13. When the rounded product [n * split_point] lies between 0 and [n],
    the training part has [int] of the rounded product rows, and two arrays
    of the same length are cut into parts of the same lengths.  With ten
    rows and the double 0.7 the product rounds to 7 and the training part
    has seven rows. *)
Theorem split_dataset_sizes {A B} (fl : Qc → Qc) (X : list A) (Y : list B)
    (split_point : Qc) :
  0 ≤ fl (qz (Z.of_nat (length X)) * split_point) →
  fl (qz (Z.of_nat (length X)) * split_point) ≤ qz (Z.of_nat (length X)) →
  length X = length Y →
  ∃ X_tr Y_tr X_va Y_va,
    split_dataset fl X Y split_point = (X_tr, Y_tr, X_va, Y_va) ∧
    Z.of_nat (length X_tr)
      = py_int (fl (qz (Z.of_nat (length X)) * split_point)) ∧
    length Y_tr = length X_tr ∧ length Y_va = length X_va ∧
    (length X_tr + length X_va = length X)%nat.
Proof.
  intros H0 H1 Hlen. eexists _, _, _, _. split; [reflexivity|].
  set (k := py_int (fl (qz (Z.of_nat (length X)) * split_point))).
  assert (Hk : (0 ≤ k ≤ Z.of_nat (length X))%Z) by (by apply py_int_bounds).
  unfold slice_to, slice_from, slice_stop.
  rewrite <- Hlen, !decide_False by lia.
  rewrite !length_take, !length_drop, <- Hlen. lia.
Qed.

Lemma split_dataset_sizes_witness :
  round_double (qz 10 * double_0_7) = qz 7 ∧
  ∃ X_tr Y_tr X_va Y_va,
    split_dataset round_double ten_rows (replicate 10 true) double_0_7
      = (X_tr, Y_tr, X_va, Y_va) ∧
    length X_tr = 7%nat ∧
    length Y_tr = 7%nat ∧ length Y_va = length X_va ∧
    (length X_tr + length X_va = 10)%nat.
Proof.
  assert (Hfl : round_double (qz 10 * double_0_7) = qz 7) by qc_eval.
  split; [exact Hfl|].
  destruct (split_dataset_sizes round_double ten_rows (replicate 10 true)
              double_0_7)
    as (X_tr & Y_tr & X_va & Y_va & Hs & Hn & HY & Hva & Hsum).
  - change (qz (Z.of_nat (length ten_rows))) with (qz 10). rewrite Hfl. qc_eval.
  - change (qz (Z.of_nat (length ten_rows))) with (qz 10). rewrite Hfl. qc_eval.
  - reflexivity.
  - change (qz (Z.of_nat (length ten_rows))) with (qz 10) in Hn.
    rewrite Hfl in Hn. change (py_int (qz 7)) with 7%Z in Hn.
    exists X_tr, Y_tr, X_va, Y_va. split; [exact Hs|].
    change (length ten_rows) with 10%nat in Hsum. lia.
Defined.

(** ** exporter.py *)

Definition LAYER_TYPES : gmap string Z :=
  list_to_map [("Dense"%string, 0%Z); ("SimpleRNN"%string, 1%Z); ("LSTM"%string, 2%Z)].

Definition ACTIVATION_TYPES : gmap string Z :=
  list_to_map [("relu"%string, 0%Z); ("linear"%string, 1%Z);
               ("sigmoid"%string, 2%Z); ("tanh"%string, 3%Z);
               ("hard_sigmoid"%string, 4%Z)].

(** Byte order of the machine: [tofile] writes the array's memory as it is. *)
Inductive byteorder :=
  | Little
  | Big.

(** The four bytes of the 32-bit pattern of [w], least significant first.
    For an [int32] this is the two's complement pattern; an integer outside
    the [int32] range keeps its low 32 bits. *)
Definition le_bytes (w : Z) : list Z :=
  [ Z.land w 255;
    Z.land (Z.shiftr w 8) 255;
    Z.land (Z.shiftr w 16) 255;
    Z.land (Z.shiftr w 24) 255 ].

Definition word_bytes (bo : byteorder) (w : Z) : list Z :=
  match bo with
  | Little => le_bytes w
  | Big => reverse (le_bytes w)
  end.

(** A weight array: its shape and its [float32] elements in row-major order,
    each element given by its 32-bit pattern. *)
Record tensor := Tensor {
  shape : list Z;
  data : list Z
}.

(** A Keras layer object, as far as [save_model] looks at it:
    [type(layer).__name__], [layer.activation.__name__] when the layer has an
    [activation] attribute, [layer.get_weights()], and, for an object with a
    [layer] attribute ([Wrapper]), the layer it wraps. *)
Inductive layer :=
  | Layer (type_name : string) (activation : option string)
          (get_weights : list tensor)
  | Wrapper (type_name : string) (activation : option string)
            (get_weights : list tensor) (inner : layer).

Definition type_name (l : layer) : string :=
  match l with Layer n _ _ | Wrapper n _ _ _ => n end.
Definition activation (l : layer) : option string :=
  match l with Layer _ a _ | Wrapper _ a _ _ => a end.
Definition get_weights (l : layer) : list tensor :=
  match l with Layer _ _ w | Wrapper _ _ w _ => w end.
Definition wrapped (l : layer) : option layer :=
  match l with Layer _ _ _ => None | Wrapper _ _ _ i => Some i end.

(** The files on disk, by path: the bytes of each. *)
Abbreviation files := (gmap string (list Z)).

(** [file.write(bytes)] on the file opened at [path]. *)
Definition write (path : string) (bytes : list Z) (σ : files) : files :=
  alter (λ old, old ++ bytes) path σ.

(** [np.array(tensor.shape, dtype='int32').tofile(file); tensor.tofile(file)] *)
Definition write_tensor (bo : byteorder) (file : string) (t : tensor)
    (σ : files) : files :=
  let σ := write file (concat (word_bytes bo <$> shape t)) σ in
  write file (concat (word_bytes bo <$> data t)) σ.

(** [np.array([value], dtype='int32').tofile(file)] *)
Definition write_integer (bo : byteorder) (file : string) (value : Z)
    (σ : files) : files :=
  write file (word_bytes bo value) σ.

(** [if type(layer).__name__ == 'TimeDistributed' or ... == 'Bidirectional':
    layer = layer.layer] *)
Definition unwrap (l : layer) : result layer :=
  if decide (type_name l = "TimeDistributed"%string
             ∨ type_name l = "Bidirectional"%string)
  then of_option (wrapped l) AttributeError
  else Ok l.

(** The first loop of [save_model]: counts the layers to export and checks
    their activations. *)
Fixpoint count_layers (layers : list layer) (num_layers : nat) : result nat :=
  match layers with
  | [] => Ok num_layers
  | l :: rest =>
      l ← unwrap l;
      if decide (is_Some (LAYER_TYPES !! type_name l)) then
        let num_layers := S num_layers in
        act ← of_option (activation l) AttributeError;
        if decide (is_Some (ACTIVATION_TYPES !! act))
        then count_layers rest num_layers
        else Raise (UnsupportedActivation act)
      else count_layers rest num_layers
  end.

(** The second loop of [save_model], on the open file. *)
Fixpoint write_layers (bo : byteorder) (file : string) (layers : list layer)
    (σ : files) : result unit * files :=
  match layers with
  | [] => (Ok (), σ)
  | l :: rest =>
      match unwrap l with
      | Raise e => (Raise e, σ)
      | Ok l =>
          match LAYER_TYPES !! type_name l with
          | Some kind =>
              let σ := write_integer bo file kind σ in
              match activation l with
              | None => (Raise AttributeError, σ)
              | Some act =>
                  match ACTIVATION_TYPES !! act with
                  | None => (Raise KeyError, σ)
                  | Some code =>
                      let σ := write_integer bo file code σ in
                      let σ := foldl (λ σ t, write_tensor bo file t σ) σ
                                 (get_weights l) in
                      write_layers bo file rest σ
                  end
              end
          | None => write_layers bo file rest σ
          end
      end
  end.

(** [save_model(model, filename)], for [model.layers].  ([open] failing on
    the path is outside the model.) *)
Definition save_model (bo : byteorder) (model : list layer) (filename : string)
    (σ : files) : result unit * files :=
  match count_layers model 0 with
  | Raise e => (Raise e, σ)
  | Ok num_layers =>
      let σ := <[filename := []]> σ in
      let σ := write_integer bo filename (Z.of_nat num_layers) σ in
      write_layers bo filename model σ
  end.

(** *** The layout of the file *)

(** What one layer contributes to the file: nothing ([None]) when its kind is
    not in [LAYER_TYPES], and otherwise its kind code, its activation code
    and its weights. *)
Definition layer_record (l : layer) : result (option (Z * Z * list tensor)) :=
  l ← unwrap l;
  match LAYER_TYPES !! type_name l with
  | None => Ok None
  | Some kind =>
      act ← of_option (activation l) AttributeError;
      match ACTIVATION_TYPES !! act with
      | None => Raise (UnsupportedActivation act)
      | Some code => Ok (Some (kind, code, get_weights l))
      end
  end.

Definition layer_records (model : list layer)
  : result (list (Z * Z * list tensor)) :=
  match rmapM layer_record model with
  | Ok rs => Ok (omap id rs)
  | Raise e => Raise e
  end.

Definition tensor_bytes (bo : byteorder) (t : tensor) : list Z :=
  concat (word_bytes bo <$> shape t) ++ concat (word_bytes bo <$> data t).

Definition record_bytes (bo : byteorder) (r : Z * Z * list tensor) : list Z :=
  word_bytes bo r.1.1 ++ word_bytes bo r.1.2
    ++ concat (tensor_bytes bo <$> r.2).

Definition model_bytes (bo : byteorder) (rs : list (Z * Z * list tensor))
  : list Z :=
  word_bytes bo (Z.of_nat (length rs)) ++ concat (record_bytes bo <$> rs).

Lemma write_insert path bytes acc (σ : files) :
  write path bytes (<[path := acc]> σ) = <[path := acc ++ bytes]> σ.
Proof. unfold write. by rewrite alter_insert_eq. Qed.

Lemma write_tensors_insert bo path ws acc (σ : files) :
  foldl (λ σ t, write_tensor bo path t σ) (<[path := acc]> σ) ws
    = <[path := acc ++ concat (tensor_bytes bo <$> ws)]> σ.
Proof.
  revert acc. induction ws as [|t ws IH]; intros acc.
  - cbn [foldl fmap list_fmap concat]. by rewrite app_nil_r.
  - cbn [foldl fmap list_fmap concat]. unfold write_tensor at 2.
    rewrite !write_insert, IH. unfold tensor_bytes.
    by rewrite <- !app_assoc.
Qed.

(** The two loops agree: on a model the first loop accepts, pass two writes
    one record per counted layer and does not raise. *)
Lemma passes_agree bo path model : ∀ n acc (σ : files),
  match rmapM layer_record model with
  | Ok rs =>
      count_layers model n = Ok (n + length (omap id rs))%nat ∧
      write_layers bo path model (<[path := acc]> σ)
        = (Ok (), <[path := acc ++ concat (record_bytes bo <$> omap id rs)]> σ)
  | Raise e => count_layers model n = Raise e
  end.
Proof.
  induction model as [|l model IH]; intros n acc σ.
  - cbn. rewrite app_nil_r. split; [f_equal; lia|done].
  - cbn [rmapM count_layers write_layers]. unfold layer_record at 1.
    destruct (unwrap l) as [l'|e]; cbn [mbind result_bind rbind]; [|done].
    destruct (LAYER_TYPES !! type_name l') as [kind|] eqn:Hkind.
    + rewrite decide_True by done.
      destruct (activation l') as [act|];
        cbn [of_option mbind result_bind rbind]; [|done].
      destruct (ACTIVATION_TYPES !! act) as [code|] eqn:Hact.
      * rewrite decide_True by done.
        unfold write_integer. rewrite !write_insert, write_tensors_insert.
        specialize (IH (S n)
          (((acc ++ word_bytes bo kind) ++ word_bytes bo code)
             ++ concat (tensor_bytes bo <$> get_weights l')) σ).
        destruct (rmapM layer_record model) as [rs|e]; [|done].
        destruct IH as [-> ->]. cbn [omap list_omap id fmap list_fmap concat length].
        split; [f_equal; lia|]. unfold record_bytes at 2. cbn [fst snd].
        by rewrite <- !app_assoc.
      * rewrite decide_False by (by intros [? ?]). done.
    + rewrite decide_False by (by intros [? ?]).
      specialize (IH n acc σ).
      destruct (rmapM layer_record model) as [rs|e]; [|done].
      destruct IH as [-> ->]. done.
Qed.

Lemma save_model_spec bo model filename (σ : files) :
  save_model bo model filename σ =
    match layer_records model with
    | Ok rs => (Ok (), <[filename := model_bytes bo rs]> σ)
    | Raise e => (Raise e, σ)
    end.
Proof.
  unfold save_model, layer_records.
  pose proof (passes_agree bo filename model 0
                (word_bytes bo (Z.of_nat (length
                   (omap id (match rmapM layer_record model with
                             | Ok rs => rs | Raise _ => [] end)))))
                σ) as Hp.
  destruct (rmapM layer_record model) as [rs|e];
    cbn [mbind result_bind rbind]; [|by rewrite Hp].
  destruct Hp as [-> Hw]. cbn [Nat.add].
  unfold write_integer. rewrite write_insert. cbn [app].
  by rewrite Hw.
Qed.

Lemma rmapM_app {A B} (f : A → result B) (xs ys : list A) :
  rmapM f (xs ++ ys) =
    match rmapM f xs with
    | Ok rx =>
        match rmapM f ys with
        | Ok ry => Ok (rx ++ ry)
        | Raise e => Raise e
        end
    | Raise e => Raise e
    end.
Proof.
  induction xs as [|x xs IH]; cbn [app rmapM].
  - by destruct (rmapM f ys).
  - destruct (f x); [|done]. rewrite IH.
    destruct (rmapM f xs); [|done]. by destruct (rmapM f ys).
Qed.

Lemma layer_records_same pre l1 l2 post :
  layer_record l1 = layer_record l2 →
  layer_records (pre ++ l1 :: post) = layer_records (pre ++ l2 :: post).
Proof.
  intros Hl. unfold layer_records. rewrite !rmapM_app. cbn [rmapM].
  by rewrite Hl.
Qed.

Lemma layer_records_skip pre l post :
  layer_record l = Ok None →
  layer_records (pre ++ l :: post) = layer_records (pre ++ post).
Proof.
  intros Hl. unfold layer_records. rewrite !rmapM_app. cbn [rmapM].
  rewrite Hl. destruct (rmapM layer_record pre) as [rx|]; [|done].
  destruct (rmapM layer_record post) as [ry|]; [|done].
  by rewrite !omap_app.
Qed.

Lemma layer_record_raises l e :
  layer_record l = Raise e →
  e = AttributeError ∨
  ∃ act, e = UnsupportedActivation act ∧ ACTIVATION_TYPES !! act = None.
Proof.
  unfold layer_record, unwrap.
  destruct (decide _) as [_|_].
  - destruct (wrapped l) as [l'|]; cbn [of_option mbind result_bind rbind].
    + destruct (LAYER_TYPES !! type_name l'); [|done].
      destruct (activation l') as [act|];
        cbn [of_option mbind result_bind rbind]; [|intros [= <-]; by left].
      destruct (ACTIVATION_TYPES !! act) eqn:Hact; [done|].
      intros [= <-]. right. by exists act.
    + intros [= <-]. by left.
  - cbn [mbind result_bind rbind].
    destruct (LAYER_TYPES !! type_name l); [|done].
    destruct (activation l) as [act|];
      cbn [of_option mbind result_bind rbind]; [|intros [= <-]; by left].
    destruct (ACTIVATION_TYPES !! act) eqn:Hact; [done|].
    intros [= <-]. right. by exists act.
Qed.

Lemma layer_records_raises model e :
  layer_records model = Raise e →
  e = AttributeError ∨
  ∃ act, e = UnsupportedActivation act ∧ ACTIVATION_TYPES !! act = None.
Proof.
  unfold layer_records. induction model as [|l model IH]; [done|].
  cbn [rmapM]. destruct (layer_record l) as [r|e'] eqn:Hl.
  - destruct (rmapM layer_record model) as [rs|e'']; [done|].
    intros [= <-]. by apply IH.
  - intros [= <-]. by eapply layer_record_raises.
Qed.

(** *** Words *)

Lemma le_bytes_length w : length (le_bytes w) = 4%nat.
Proof. reflexivity. Qed.

Lemma word_bytes_length bo w : length (word_bytes bo w) = 4%nat.
Proof. destruct bo; [done|]. unfold word_bytes. by rewrite length_reverse. Qed.

(** The unsigned value of four bytes, least significant first. *)
Definition le_value (bs : list Z) : Z :=
  foldr (λ b acc, b + 256 * acc)%Z 0%Z bs.

Lemma land_255 x : Z.land x 255 = (x mod 256)%Z.
Proof. change 255%Z with (Z.ones 8). by rewrite Z.land_ones by lia. Qed.

Lemma le_value_le_bytes w : le_value (le_bytes w) = (w mod 2 ^ 32)%Z.
Proof.
  unfold le_value, le_bytes. cbn [foldr].
  rewrite !land_255, !Z.shiftr_div_pow2 by lia.
  change (2 ^ 8)%Z with 256%Z. change (2 ^ 16)%Z with (256 * 256)%Z.
  change (2 ^ 24)%Z with (256 * (256 * 256))%Z.
  change (2 ^ 32)%Z with (256 * (256 * (256 * 256)))%Z.
  rewrite <- !Z.div_div by lia.
  rewrite !Z.rem_mul_r by lia.
  rewrite !Z.div_div by lia. 
  lia.
Qed.

Lemma word_bytes_le_bytes bo v v' :
  word_bytes bo v = word_bytes bo v' → le_bytes v = le_bytes v'.
Proof.
  destruct bo; [done|]. unfold word_bytes. intros H.
  by apply (inj reverse) in H.
Qed.

Lemma concat_word_bytes_length bo (ws : list Z) :
  length (concat (word_bytes bo <$> ws)) = (4 * length ws)%nat.
Proof.
  induction ws as [|w ws IH]; [done|].
  cbn [fmap list_fmap concat length]. rewrite length_app, word_bytes_length, IH. lia.
Qed.

(** Sample models. *)
Definition dense_example : layer :=
  Layer "Dense" (Some "relu"%string)
    [Tensor [2; 1]%Z [10; 20]%Z; Tensor [1]%Z [30]%Z].

Definition dropout_example : layer := Layer "Dropout" None [].

Definition model_example : list layer :=
  [ dense_example; dropout_example;
    Wrapper "TimeDistributed" None []
      (Layer "LSTM" (Some "tanh"%string) [Tensor [1; 1]%Z [7]%Z]) ].

Definition softmax_example : layer :=
  Layer "Dense" (Some "softmax"%string) [Tensor [1]%Z [5]%Z].

Definition files_example : files :=
  {[ "marker_model.bin"%string := [1; 2; 3]%Z; "notes.txt"%string := [104; 105]%Z ]}.

(** X14. The file [save_model] writes: when it returns, the file at
    [filename] holds exactly the layer count followed, for each layer of a
    supported kind in model order, by the kind code, the activation code and
    each weight tensor as its shape entries followed by its data, all as
    4-byte words; what the file held before is gone and no other file
    changes. *)
Theorem save_model_layout bo model filename (σ σ' : files) :
  save_model bo model filename σ = (Ok (), σ') →
  ∃ rs, layer_records model = Ok rs ∧
        σ' = <[filename := model_bytes bo rs]> σ.
Proof.
  rewrite save_model_spec. destruct (layer_records model) as [rs|e]; [|done].
  intros [= <-]. by exists rs.
Qed.

Lemma save_model_layout_witness :
  ∃ rs, layer_records model_example = Ok rs ∧
        <[ "marker_model.bin"%string :=
             [ 2; 0; 0; 0;
               0; 0; 0; 0;   0; 0; 0; 0;
               2; 0; 0; 0;   1; 0; 0; 0;   10; 0; 0; 0;   20; 0; 0; 0;
               1; 0; 0; 0;   30; 0; 0; 0;
               2; 0; 0; 0;   3; 0; 0; 0;
               1; 0; 0; 0;   1; 0; 0; 0;   7; 0; 0; 0 ]%Z ]> files_example
          = <[ "marker_model.bin"%string := model_bytes Little rs ]> files_example.
Proof.
  apply (save_model_layout Little model_example "marker_model.bin" files_example).
  reflexivity.
Defined.

(** X15. When [save_model] raises, no file has been created, truncated or
    written: every exception comes from the first loop, before the file is
    opened.  The exception is the one for an unsupported activation, or the
    [AttributeError] of a layer without the attribute the code reads. *)
Theorem save_model_raise_leaves_files bo model filename (σ σ' : files) e :
  save_model bo model filename σ = (Raise e, σ') →
  σ' = σ ∧
  (e = AttributeError ∨
   ∃ act, e = UnsupportedActivation act ∧ ACTIVATION_TYPES !! act = None).
Proof.
  rewrite save_model_spec.
  destruct (layer_records model) as [rs|e'] eqn:Hrs; [done|].
  intros [= <- <-]. split; [done|]. by eapply layer_records_raises.
Qed.

Lemma save_model_raise_leaves_files_witness :
  files_example = files_example ∧
  (UnsupportedActivation "softmax" = AttributeError ∨
   ∃ act, UnsupportedActivation "softmax" = UnsupportedActivation act
          ∧ ACTIVATION_TYPES !! act = None).
Proof.
  apply (save_model_raise_leaves_files Little (model_example ++ [softmax_example])
           "marker_model.bin" files_example files_example).
  reflexivity.
Defined.

(** X16. A layer whose kind, after unwrapping once, is not in [LAYER_TYPES]
    is left out without any error: the call behaves as if the layer were not
    in the model.  This covers a [Dropout] layer, and a wrapper around
    another wrapper. *)
Theorem save_model_skips_unsupported_kinds bo pre l l' post filename (σ : files) :
  unwrap l = Ok l' → LAYER_TYPES !! type_name l' = None →
  save_model bo (pre ++ l :: post) filename σ
    = save_model bo (pre ++ post) filename σ.
Proof.
  intros Hu Hk. rewrite !save_model_spec, layer_records_skip; [done|].
  unfold layer_record. rewrite Hu. cbn [mbind result_bind rbind].
  by rewrite Hk.
Qed.

Lemma save_model_skips_unsupported_kinds_witness :
  save_model Big
      ([dense_example]
         ++ Wrapper "TimeDistributed" None []
              (Wrapper "Bidirectional" None []
                 (Layer "LSTM" (Some "tanh"%string) []))
         :: [dense_example])
      "joint_model.bin" files_example
    = save_model Big ([dense_example] ++ [dense_example])
        "joint_model.bin" files_example.
Proof.
  apply (save_model_skips_unsupported_kinds Big [dense_example] _
           (Wrapper "Bidirectional" None []
              (Layer "LSTM" (Some "tanh"%string) []))).
  - reflexivity.
  - reflexivity.
Defined.

(** X17. A [TimeDistributed] or [Bidirectional] wrapper around a layer that
    is not itself such a wrapper is transparent: the outcome is the one of
    the model with the wrapped layer in the wrapper's place.  (Only one
    level is unwrapped: a wrapper around a wrapper is left out, see X16.) *)
Theorem save_model_wrapper_transparent bo pre name act ws l post filename
    (σ : files) :
  name = "TimeDistributed"%string ∨ name = "Bidirectional"%string →
  type_name l ≠ "TimeDistributed"%string →
  type_name l ≠ "Bidirectional"%string →
  save_model bo (pre ++ Wrapper name act ws l :: post) filename σ
    = save_model bo (pre ++ l :: post) filename σ.
Proof.
  intros Hname Hl1 Hl2. rewrite !save_model_spec.
  rewrite (layer_records_same pre (Wrapper name act ws l) l); [done|].
  unfold layer_record, unwrap. cbn [type_name wrapped of_option].
  rewrite decide_True by done.
  rewrite decide_False by (by intros [?|?]). done.
Qed.

Lemma save_model_wrapper_transparent_witness :
  save_model Little
      ([dropout_example]
         ++ Wrapper "Bidirectional" (Some "softmax"%string) [] dense_example :: [])
      "joint_model.bin" ∅
    = save_model Little ([dropout_example] ++ dense_example :: [])
        "joint_model.bin" ∅.
Proof.
  apply (save_model_wrapper_transparent Little [dropout_example]).
  - by right.
  - discriminate.
  - discriminate.
Defined.

(** Bytes a tensor and a layer record take in the file. *)
Definition tensor_size (t : tensor) : nat :=
  (4 * (length (shape t) + length (data t)))%nat.

Definition record_size (r : Z * Z * list tensor) : nat :=
  (8 + sum_list (tensor_size <$> r.2))%nat.

(** The number of elements a shape announces. *)
Definition well_shaped (t : tensor) : Prop :=
  Z.of_nat (length (data t)) = foldr Z.mul 1%Z (shape t).

Lemma tensor_bytes_length bo t : length (tensor_bytes bo t) = tensor_size t.
Proof.
  unfold tensor_bytes, tensor_size.
  rewrite length_app, !concat_word_bytes_length. lia.
Qed.

Lemma concat_fmap_length {A B} (f : A → list B) (g : A → nat) (l : list A) :
  (∀ x, length (f x) = g x) →
  length (concat (f <$> l)) = sum_list (g <$> l).
Proof.
  intros Hfg. induction l as [|x l IH]; [done|].
  rewrite !fmap_cons. cbn [concat]. rewrite length_app, Hfg, IH. done.
Qed.

Lemma record_bytes_length bo r : length (record_bytes bo r) = record_size r.
Proof.
  unfold record_bytes, record_size.
  rewrite !length_app, !word_bytes_length.
  rewrite (concat_fmap_length _ tensor_size) by apply tensor_bytes_length.
  lia.
Qed.

Lemma rmapM_length {A B} (f : A → result B) xs ys :
  rmapM f xs = Ok ys → length ys = length xs.
Proof.
  revert ys. induction xs as [|x xs IH]; intros ys; cbn [rmapM].
  - by intros [= <-].
  - destruct (f x); [|done]. destruct (rmapM f xs) as [ys'|]; [|done].
    intros [= <-]. cbn [length]. f_equal. by apply IH.
Qed.

Lemma layer_records_length model rs :
  layer_records model = Ok rs → (length rs ≤ length model)%nat.
Proof.
  unfold layer_records.
  destruct (rmapM layer_record model) as [rs'|] eqn:Hrs; [|done].
  intros [= <-]. apply rmapM_length in Hrs. rewrite <- Hrs.
  clear Hrs. induction rs' as [|[r|] rs' IH]; cbn [omap list_omap id length]; lia.
Qed.

(** X18. Size of the file and its header: the first four bytes encode the
    number of layer records that follow, which is at most the number of
    layers of the model, and the file has 4 bytes for the count, 8 for the
    two codes of each record and 4 for every shape entry and every element
    of every tensor; nothing else is written. *)
Theorem save_model_file_size bo model filename (σ σ' : files) :
  save_model bo model filename σ = (Ok (), σ') →
  ∃ rs bytes,
    layer_records model = Ok rs ∧
    σ' !! filename = Some bytes ∧
    take 4 bytes = word_bytes bo (Z.of_nat (length rs)) ∧
    (length rs ≤ length model)%nat ∧
    length bytes = (4 + sum_list (record_size <$> rs))%nat.
Proof.
  rewrite save_model_spec.
  destruct (layer_records model) as [rs|e] eqn:Hrs; [|done].
  intros [= <-]. exists rs, (model_bytes bo rs).
  split; [done|]. split; [by rewrite lookup_insert_eq|].
  unfold model_bytes. split; [|split].
  - rewrite take_app_length'; [done|]. by rewrite word_bytes_length.
  - by apply layer_records_length.
  - rewrite length_app, word_bytes_length.
    by rewrite (concat_fmap_length _ record_size) by apply record_bytes_length.
Qed.

Lemma save_model_file_size_witness :
  ∃ rs bytes,
    layer_records [dropout_example; dense_example] = Ok rs ∧
    (<[ "joint_model.bin"%string :=
          [ 0; 0; 0; 1;
            0; 0; 0; 0;   0; 0; 0; 0;
            0; 0; 0; 2;   0; 0; 0; 1;   0; 0; 0; 10;   0; 0; 0; 20;
            0; 0; 0; 1;   0; 0; 0; 30 ]%Z ]> files_example)
      !! "joint_model.bin"%string = Some bytes ∧
    take 4 bytes = word_bytes Big (Z.of_nat (length rs)) ∧
    (length rs ≤ length [dropout_example; dense_example])%nat ∧
    length bytes = (4 + sum_list (record_size <$> rs))%nat.
Proof.
  apply (save_model_file_size Big [dropout_example; dense_example]
           "joint_model.bin" files_example).
  reflexivity.
Defined.

(** X19. The file does not describe itself: the rank of a tensor is not
    written, so two models whose weights differ (all of them with as many
    elements as their shapes announce) can give the same file.  A reader has
    to know the rank of every tensor from the layer kind. *)
Theorem save_model_not_self_describing bo (y : Z) filename (σ : files) :
  let ws1 := [Tensor [1; 1]%Z [1%Z]; Tensor [1]%Z [y]] in
  let ws2 := [Tensor [1]%Z [1%Z]; Tensor [1; 1]%Z [y]] in
  ws1 ≠ ws2 ∧ Forall well_shaped ws1 ∧ Forall well_shaped ws2 ∧
  save_model bo [Layer "Dense" (Some "relu"%string) ws1] filename σ
    = save_model bo [Layer "Dense" (Some "relu"%string) ws2] filename σ.
Proof.
  cbv zeta. split; [discriminate|].
  split; [by repeat constructor|]. split; [by repeat constructor|].
  rewrite !save_model_spec.
  change (layer_records [Layer "Dense" (Some "relu"%string)
                           [Tensor [1; 1]%Z [1%Z]; Tensor [1]%Z [y]]])
    with (Ok (A:=list (Z * Z * list tensor))
            [(0%Z, 0%Z, [Tensor [1; 1]%Z [1%Z]; Tensor [1]%Z [y]])]).
  change (layer_records [Layer "Dense" (Some "relu"%string)
                           [Tensor [1]%Z [1%Z]; Tensor [1; 1]%Z [y]]])
    with (Ok (A:=list (Z * Z * list tensor))
            [(0%Z, 0%Z, [Tensor [1]%Z [1%Z]; Tensor [1; 1]%Z [y]])]).
  do 2 f_equal. by destruct bo.
Qed.

(** X20. [write_integer] writes four bytes, and two different integers of
    the [int32] range never get the same four bytes. *)
Theorem write_integer_injective bo file (v v' : Z) (σ : files) old :
  (- 2 ^ 31 ≤ v < 2 ^ 31)%Z → (- 2 ^ 31 ≤ v' < 2 ^ 31)%Z →
  σ !! file = Some old → v ≠ v' →
  ∃ w w',
    write_integer bo file v σ !! file = Some (old ++ w) ∧
    write_integer bo file v' σ !! file = Some (old ++ w') ∧
    length w = 4%nat ∧ length w' = 4%nat ∧ w ≠ w'.
Proof.
  intros Hv Hv' Hold Hne. exists (word_bytes bo v), (word_bytes bo v').
  unfold write_integer, write. rewrite !lookup_alter_eq, Hold.
  split; [done|]. split; [done|]. rewrite !word_bytes_length.
  split; [done|]. split; [done|].
  intros Heq%word_bytes_le_bytes. apply Hne.
  apply (f_equal le_value) in Heq. rewrite !le_value_le_bytes in Heq.
  assert (Hmod : ∀ x, (- 2 ^ 31 ≤ x < 2 ^ 31)%Z →
            x = (if decide (x mod 2 ^ 32 < 2 ^ 31)%Z
                 then x mod 2 ^ 32 else x mod 2 ^ 32 - 2 ^ 32)%Z).
  { intros x Hx. destruct (decide (0 ≤ x)%Z).
    - rewrite Z.mod_small by lia. rewrite decide_True by lia. done.
    - assert (Hx' : (x mod 2 ^ 32 = x + 2 ^ 32)%Z).
      { rewrite <- (Z.mod_add x 1) by lia. apply Z.mod_small. lia. }
      rewrite Hx', decide_False by lia. lia. }
  rewrite (Hmod v Hv), (Hmod v' Hv'), Heq. done.
Qed.

Lemma write_integer_injective_witness :
  ∃ w w',
    write_integer Little "notes.txt" (-1) files_example !! "notes.txt"%string
      = Some ([104; 105]%Z ++ w) ∧
    write_integer Little "notes.txt" 255 files_example !! "notes.txt"%string
      = Some ([104; 105]%Z ++ w') ∧
    length w = 4%nat ∧ length w' = 4%nat ∧ w ≠ w'.
Proof.
  apply (write_integer_injective Little "notes.txt" (-1) 255 files_example).
  - lia.
  - lia.
  - reflexivity.
  - discriminate.
Defined.

(** ** train_marker_model.py: extract_features *)

(** [sorted(s)] for a set of indices. *)
Definition sorted_elements (s : gset nat) : list nat :=
  merge_sort (≤)%nat (elements s).

(** [x[idxs] = 0] on a copy of [x]: [IndexError] when an index is out of
    bounds. *)
Definition zero_rows (idxs : list nat) (x : points) : result points :=
  if decide (Forall (λ i, i < length x)%nat idxs)
  then Ok (foldr (λ i acc, <[i := vzero]> acc) x idxs)
  else Raise IndexError.

(** [extract_features(mocap_sample, occlusions)], with the global template
    [hand] as an argument. *)
Definition extract_features (svd : mat3 → option svd_result) (hand : points)
    (mocap_sample : points) (occlusions : list nat)
  : result (list Qc * list Qc) :=
  let occluded : gset nat := list_to_set occlusions in
  let available : gset nat :=
    list_to_set (seq 0 (length mocap_sample)) ∖ occluded in
  let available := sorted_elements available in
  let occluded := sorted_elements occluded in
  X ← take_rows available mocap_sample;
  Y ← take_rows available hand;
  '(R, offset) ← rigid_motion svd X Y;
  let y := apply_motion mocap_sample R offset in
  x ← zero_rows occluded y;
  Ok (flatten x, flatten y).

(** The markers the alignment uses and the markers it hides. *)
Definition available_of (n : nat) (occlusions : list nat) : list nat :=
  sorted_elements (list_to_set (seq 0 n) ∖ list_to_set occlusions).

Definition occluded_of (occlusions : list nat) : list nat :=
  sorted_elements (list_to_set occlusions).

Lemma elem_of_sorted_elements (s : gset nat) i : i ∈ sorted_elements s ↔ i ∈ s.
Proof.
  unfold sorted_elements. rewrite merge_sort_Permutation. apply elem_of_elements.
Qed.

Lemma elem_of_available_of n occlusions i :
  i ∈ available_of n occlusions ↔ (i < n)%nat ∧ i ∉ occlusions.
Proof.
  unfold available_of. rewrite elem_of_sorted_elements, elem_of_difference.
  rewrite !elem_of_list_to_set, elem_of_seq. intuition lia.
Qed.

Lemma elem_of_occluded_of occlusions i :
  i ∈ occluded_of occlusions ↔ i ∈ occlusions.
Proof.
  unfold occluded_of. by rewrite elem_of_sorted_elements, elem_of_list_to_set.
Qed.

Lemma take_rows_ok idxs (P : list vec3) :
  Forall (λ i, i < length P)%nat idxs →
  ∃ rows, take_rows idxs P = Ok rows ∧ length rows = length idxs.
Proof.
  unfold take_rows. induction 1 as [|i idxs Hi _ (rows & Hrows & Hlen)].
  - by exists [].
  - destruct (lookup_lt_is_Some_2 P i Hi) as [p Hp].
    exists (p :: rows). cbn [rmapM]. unfold points in *.
    rewrite Hp. cbn [of_option]. rewrite Hrows. cbn [length]. by rewrite Hlen.
Qed.

Lemma take_rows_insert idxs (P : list vec3) i p :
  i ∉ idxs → take_rows idxs (<[i := p]> P) = take_rows idxs P.
Proof.
  unfold take_rows. induction idxs as [|j idxs IH]; [done|].
  intros Hi. apply not_elem_of_cons in Hi as [Hij Hi].
  cbn [rmapM]. unfold points in *.
  rewrite list_lookup_insert_ne by done. by rewrite IH.
Qed.

Lemma zero_rows_lookup idxs (x x' : list vec3) i :
  zero_rows idxs x = Ok x' →
  length x' = length x ∧
  Forall (λ j, j < length x)%nat idxs ∧
  x' !! i = if decide (i ∈ idxs) then Some vzero else x !! i.
Proof.
  unfold zero_rows. destruct (decide _) as [Hall|]; [|done].
  intros [= <-]. split; [|split; [done|]].
  - clear Hall. induction idxs as [|j idxs IH]; [done|].
    cbn [foldr]. unfold points in *. by rewrite length_insert.
  - induction Hall as [|j idxs Hj Hall IH].
    + cbn [foldr]. rewrite decide_False; [done|]. apply not_elem_of_nil.
    + cbn [foldr]. unfold points in *. destruct (decide (i = j)) as [->|Hij].
      * rewrite decide_True by (apply elem_of_cons; by left).
        apply list_lookup_insert_eq.
        assert (Hlen : length (foldr (λ i acc, <[i:=vzero]> acc) x idxs) = length x).
        { clear. induction idxs as [|k idxs IH]; [done|].
          cbn [foldr]. by rewrite length_insert. }
        by rewrite Hlen.
      * rewrite list_lookup_insert_ne by done. rewrite IH.
        destruct (decide (i ∈ idxs)) as [Hin|Hin].
        -- rewrite decide_True; [done|]. (apply elem_of_cons; by right).
        -- rewrite decide_False; [done|].
           intros [?|?]%elem_of_cons; done.
Qed.

Lemma extract_features_unfold svd hand mocap_sample occlusions :
  extract_features svd hand mocap_sample occlusions =
    (X ← take_rows (available_of (length mocap_sample) occlusions) mocap_sample;
     Y ← take_rows (available_of (length mocap_sample) occlusions) hand;
     Rt ← rigid_motion svd X Y;
     x ← zero_rows (occluded_of occlusions)
           (apply_motion mocap_sample Rt.1 Rt.2);
     Ok (flatten x, flatten (apply_motion mocap_sample Rt.1 Rt.2))).
Proof.
  unfold extract_features, available_of, occluded_of.
  destruct (take_rows _ mocap_sample) as [X|]; [|reflexivity].
  cbn [mbind result_bind rbind].
  destruct (take_rows _ hand) as [Y|]; [|reflexivity].
  cbn [mbind result_bind rbind].
  generalize (rigid_motion svd X Y). intros [[R t]|]; reflexivity.
Qed.

Lemma extract_features_inv svd hand mocap_sample occlusions x y :
  extract_features svd hand mocap_sample occlusions = Ok (x, y) →
  ∃ X Y R t xs,
    take_rows (available_of (length mocap_sample) occlusions) mocap_sample = Ok X ∧
    take_rows (available_of (length mocap_sample) occlusions) hand = Ok Y ∧
    rigid_motion svd X Y = Ok (R, t) ∧
    zero_rows (occluded_of occlusions) (apply_motion mocap_sample R t) = Ok xs ∧
    x = flatten xs ∧ y = flatten (apply_motion mocap_sample R t).
Proof.
  rewrite extract_features_unfold.
  destruct (take_rows _ mocap_sample) as [X|]; [|done].
  cbn [mbind result_bind rbind].
  destruct (take_rows _ hand) as [Y|]; [|done].
  cbn [mbind result_bind rbind].
  destruct (rigid_motion svd X Y) as [[R t]|] eqn:Hr; [|done].
  cbn [mbind result_bind rbind fst snd].
  destruct (zero_rows _ _) as [xs|] eqn:Hz; [|done].
  cbn [mbind result_bind rbind].
  intros [= <- <-]. by exists X, Y, R, t, xs.
Qed.

Lemma apply_motion_length (P : list vec3) R t :
  length (apply_motion P R t) = length P.
Proof. unfold apply_motion. by rewrite length_fmap. Qed.

(** X21. What [extract_features] returns: the alignment is computed from the
    visible markers of the sample and the same rows of the template; the
    target is the whole aligned sample, flattened; the input has one row per
    marker, zero for every occluded marker and the aligned position for every
    other one.  (Stated when some marker is visible; every occluded index
    is a row of the sample.) *)
Theorem extract_features_masks_input svd hand mocap_sample occlusions x y i0 :
  (i0 < length mocap_sample)%nat → i0 ∉ occlusions →
  extract_features svd hand mocap_sample occlusions = Ok (x, y) →
  ∃ X Y R t xs,
    take_rows (available_of (length mocap_sample) occlusions) mocap_sample = Ok X ∧
    take_rows (available_of (length mocap_sample) occlusions) hand = Ok Y ∧
    rigid_motion svd X Y = Ok (R, t) ∧
    y = extract_input_features (apply_motion mocap_sample R t) ∧
    x = extract_input_features xs ∧
    length xs = length mocap_sample ∧
    Forall (λ i, i < length mocap_sample)%nat occlusions ∧
    ∀ i, xs !! i = if decide (i ∈ occlusions) then Some vzero
                   else apply_motion mocap_sample R t !! i.
Proof.
  intros _ _ Hf.
  destruct (extract_features_inv _ _ _ _ _ _ Hf)
    as (X & Y & R & t & xs & HX & HY & Hr & Hz & -> & ->).
  exists X, Y, R, t, xs. do 5 (split; [done|]).
  pose proof (zero_rows_lookup _ _ _ 0%nat Hz) as (Hlen & Hall & _).
  rewrite apply_motion_length in Hlen, Hall.
  split; [done|]. split.
  - apply Forall_forall. intros i Hi%elem_of_occluded_of.
    revert i Hi. by apply Forall_forall.
  - intros i. destruct (zero_rows_lookup _ _ _ i Hz) as (_ & _ & Hxi).
    etrans; [exact Hxi|].
    destruct (decide (i ∈ occlusions)) as [Hi|Hi].
    + rewrite decide_True; [done|]. by apply elem_of_occluded_of.
    + rewrite decide_False; [done|]. by rewrite elem_of_occluded_of.
Qed.

Lemma extract_features_masks_input_witness :
  ∃ X Y R t xs,
    take_rows (available_of (length frame_shifted) [3%nat]) frame_shifted = Ok X ∧
    take_rows (available_of (length frame_shifted) [3%nat]) hand_example = Ok Y ∧
    rigid_motion svd_diag X Y = Ok (R, t) ∧
    [1; 0; 0; -1; 0; 0; 0; 0; 0; 0; 1; 1]
      = extract_input_features (apply_motion frame_shifted R t) ∧
    [1; 0; 0; -1; 0; 0; 0; 0; 0; 0; 0; 0] = extract_input_features xs ∧
    length xs = length frame_shifted ∧
    Forall (λ i, i < length frame_shifted)%nat [3%nat] ∧
    ∀ i, xs !! i = if decide (i ∈ [3%nat]) then Some vzero
                   else apply_motion frame_shifted R t !! i.
Proof.
  apply (extract_features_masks_input svd_diag hand_example frame_shifted
           [3%nat] _ _ 0%nat).
  - vm_compute. lia.
  - intros Hin%list_elem_of_singleton. discriminate Hin.
  - qc_eval.
Defined.

Lemma zero_rows_insert idxs (y : list vec3) i q :
  i ∈ idxs → zero_rows idxs (<[i := q]> y) = zero_rows idxs y.
Proof.
  intros Hi. unfold zero_rows. unfold points in *. rewrite length_insert.
  destruct (decide _) as [Hall|]; [|done]. f_equal.
  clear Hall. induction idxs as [|j idxs IH]; [by apply elem_of_nil in Hi|].
  cbn [foldr]. destruct (decide (i ∈ idxs)) as [Hin|Hnin].
  - by rewrite IH.
  - apply elem_of_cons in Hi as [->|?]; [|done].
    clear IH. induction idxs as [|k idxs IH].
    + cbn [foldr]. apply list_insert_insert_eq.
    + cbn [foldr]. apply not_elem_of_cons in Hnin as [Hjk Hnin].
      rewrite list_insert_insert_ne by done.
      rewrite IH by done. by rewrite list_insert_insert_ne.
Qed.

Lemma apply_motion_insert (P : list vec3) R t i p :
  apply_motion (<[i := p]> P) R t
    = <[i := vadd (vmulm p R) t]> (apply_motion P R t).
Proof. unfold apply_motion, points. by rewrite list_fmap_insert. Qed.

(** X22. The input vector does not depend on where the occluded markers
    are: moving an occluded marker of the sample changes neither the
    alignment nor any entry of [x]. *)
Theorem extract_features_hides_occluded svd hand mocap_sample occlusions i p x y :
  i ∈ occlusions →
  extract_features svd hand mocap_sample occlusions = Ok (x, y) →
  ∃ y', extract_features svd hand (<[i := p]> mocap_sample) occlusions
          = Ok (x, y').
Proof.
  intros Hi Hf.
  destruct (extract_features_inv _ _ _ _ _ _ Hf)
    as (X & Y & R & t & xs & HX & HY & Hr & Hz & -> & ->).
  rewrite extract_features_unfold. unfold points in *.
  rewrite length_insert.
  rewrite take_rows_insert, HX; [|rewrite elem_of_available_of; tauto].
  cbn [mbind result_bind rbind]. rewrite HY.
  cbn [mbind result_bind rbind]. rewrite Hr.
  cbn [mbind result_bind rbind fst snd].
  rewrite apply_motion_insert.
  rewrite zero_rows_insert by (by apply elem_of_occluded_of).
  rewrite Hz. cbn [mbind result_bind rbind]. eauto.
Qed.

Lemma extract_features_hides_occluded_witness :
  ∃ y', extract_features svd_diag hand_example
          (<[3%nat := V3 (qz 9) (qz 9) (qz 9)]> frame_shifted) [3%nat]
          = Ok ([1; 0; 0; -1; 0; 0; 0; 0; 0; 0; 0; 0], y').
Proof.
  apply (extract_features_hides_occluded svd_diag hand_example frame_shifted
           [3%nat] 3%nat (V3 (qz 9) (qz 9) (qz 9)) _
           [1; 0; 0; -1; 0; 0; 0; 0; 0; 0; 1; 1]).
  - by apply list_elem_of_singleton.
  - qc_eval.
Defined.

(** ** train_marker_model.py: generate_minibatch *)

Definition batch_size : nat := 32.

(** The part of [numpy.random] the generator calls, as functions of the state
    [rng] of NumPy's global generator, with what its documentation promises:
    - [permutation n]: a rearrangement of [range(n)];
    - [randint low high]: an integer of [[low, high)], [ValueError] when the
      interval is empty;
    - [choice_p]: [np.random.choice(4, p=[0.7, 0.17, 0.08, 0.05])], an
      integer below 4;
    - [choice n k]: [np.random.choice(n, k, replace=False)], [k] distinct
      integers below [n], [ValueError] when [k] is negative or above [n]. *)
Class NumpyRandom (rng : Type) := {
  permutation : nat → rng → list nat * rng;
  randint : Z → Z → rng → result Z * rng;
  choice_p : rng → nat * rng;
  choice : nat → Z → rng → result (list nat) * rng;
  permutation_spec n g : (permutation n g).1 ≡ₚ seq 0 n;
  randint_spec low high g :
    (low < high)%Z → ∃ v, (randint low high g).1 = Ok v ∧ (low ≤ v < high)%Z;
  randint_empty low high g :
    (high ≤ low)%Z → (randint low high g).1 = Raise ValueError;
  choice_p_spec g : ((choice_p g).1 < 4)%nat;
  choice_spec n k g :
    (0 ≤ k ≤ Z.of_nat n)%Z →
    ∃ l, (choice n k g).1 = Ok l ∧ NoDup l ∧ Z.of_nat (length l) = k
         ∧ Forall (λ i, i < n)%nat l;
  choice_invalid n k g :
    (k < 0 ∨ Z.of_nat n < k)%Z → (choice n k g).1 = Raise ValueError
}.

(** The local variables of the generator that live across [yield]s, and the
    state of the random generator. *)
Record gen_state (rng : Type) := GenState {
  counter : nat;
  indices : list nat;
  random_state : rng
}.
Arguments GenState {rng} _ _ _.
Arguments counter {rng} _.
Arguments indices {rng} _.
Arguments random_state {rng} _.

(** One row of a minibatch; [row_idx] is the sample it was made from, which
    the generator does not yield and the statements below refer to. *)
Record batch_row := BatchRow {
  row_idx : nat;
  row_x : list Qc;
  row_y : list Qc
}.

(** [counter = X.shape[0]], before the first minibatch ([indices] is not yet
    bound). *)
Definition gen_start {rng} (X : list points) (g : rng) : gen_state rng :=
  GenState (length X) [] g.

(** [if counter == X.shape[0]: indices = permutation(...); counter = 0]
    [idx = indices[counter]; counter += 1] *)
Definition select_index `{NumpyRandom rng} (n : nat) (st : gen_state rng)
  : result (nat * gen_state rng) :=
  let st :=
    if decide (counter st = n)
    then GenState 0 (permutation n (random_state st)).1
                    (permutation n (random_state st)).2
    else st in
  idx ← of_option (indices st !! counter st) IndexError;
  Ok (idx, GenState (S (counter st)) (indices st) (random_state st)).

(** The number of occlusions and the occluded markers of one sample. *)
Definition draw_occlusions `{NumpyRandom rng} (min_occlusions max_occlusions : Z)
    (g : rng) : result (list nat * rng) :=
  num_g ←
    (if decide (min_occlusions ≠ (-1)%Z)
     then
       num ← (randint min_occlusions (max_occlusions + 1) g).1;
       Ok (num, (randint min_occlusions (max_occlusions + 1) g).2)
     else Ok ((Z.of_nat (choice_p g).1 + 1)%Z, (choice_p g).2));
  occluded_idxs ← (choice (length all_markers) num_g.1 num_g.2).1;
  Ok (occluded_idxs, (choice (length all_markers) num_g.1 num_g.2).2).

(** One iteration of [for i in range(batch_size)].  The row assignments
    [X_batch[i] = x] and [Y_batch[i] = y] need vectors of the row length. *)
Definition sample_step `{NumpyRandom rng} (svd : mat3 → option svd_result)
    (hand : points) (X : list points) (min_occlusions max_occlusions : Z)
    (st : gen_state rng) : result (batch_row * gen_state rng) :=
  sel ← select_index (length X) st;
  occ ← draw_occlusions min_occlusions max_occlusions (random_state sel.2);
  mocap_sample ← of_option (X !! sel.1) IndexError;
  xy ← extract_features svd hand mocap_sample occ.1;
  if decide (length xy.1 = (length all_markers * 3)%nat
             ∧ length xy.2 = (length all_markers * 3)%nat)
  then Ok (BatchRow sel.1 xy.1 xy.2,
           GenState (counter sel.2) (indices sel.2) occ.2)
  else Raise ValueError.

(** [k] iterations of the loop. *)
Fixpoint batch_rows `{NumpyRandom rng} (svd : mat3 → option svd_result)
    (hand : points) (X : list points) (min_occlusions max_occlusions : Z)
    (k : nat) (st : gen_state rng) : result (list batch_row * gen_state rng) :=
  match k with
  | 0%nat => Ok ([], st)
  | S k' =>
      r ← sample_step svd hand X min_occlusions max_occlusions st;
      rs ← batch_rows svd hand X min_occlusions max_occlusions k' r.2;
      Ok (r.1 :: rs.1, rs.2)
  end.

(** Resuming the generator: the next [(X_batch, Y_batch)] and the state at
    the [yield]. *)
Definition generate_minibatch `{NumpyRandom rng} (svd : mat3 → option svd_result)
    (hand : points) (X : list points) (min_occlusions max_occlusions : Z)
    (st : gen_state rng)
  : result (list (list Qc) * list (list Qc) * gen_state rng) :=
  match batch_rows svd hand X min_occlusions max_occlusions batch_size st with
  | Ok (rows, st') => Ok (row_x <$> rows, row_y <$> rows, st')
  | Raise e => Raise e
  end.

(** A deterministic instance, to run the generator: the permutation is the
    reversed range, the occluded markers are the first ones. *)
Definition fixed_permutation (n : nat) (g : unit) : list nat * unit :=
  (reverse (seq 0 n), g).
Definition fixed_randint (low high : Z) (g : unit) : result Z * unit :=
  (if decide (low < high)%Z then Ok low else Raise ValueError, g).
Definition fixed_choice_p (g : unit) : nat * unit := (0%nat, g).
Definition fixed_choice (n : nat) (k : Z) (g : unit) : result (list nat) * unit :=
  (if decide (0 ≤ k ≤ Z.of_nat n)%Z then Ok (seq 0 (Z.to_nat k))
   else Raise ValueError, g).

#[export] Program Instance fixed_random : NumpyRandom unit := {|
  permutation := fixed_permutation;
  randint := fixed_randint;
  choice_p := fixed_choice_p;
  choice := fixed_choice
|}.
Next Obligation. intros n g. cbn. apply reverse_Permutation. Qed.
Next Obligation.
  intros low high g Hlt. exists low. cbn. rewrite decide_True by done.
  split; [done|lia].
Qed.
Next Obligation. intros low high g Hle. cbn. by rewrite decide_False by lia. Qed.
Next Obligation. intros g. cbn. lia. Qed.
Next Obligation.
  intros n k g Hk. exists (seq 0 (Z.to_nat k)). cbn.
  rewrite decide_True by done. split; [done|]. split; [apply NoDup_seq|].
  rewrite length_seq. split; [lia|].
  apply Forall_forall. intros i Hi%elem_of_seq. lia.
Qed.
Next Obligation. intros n k g Hk. cbn. by rewrite decide_False by lia. Qed.

(** *** Running the generator *)

(** Between two samples: the cursor is within the permutation in use. *)
Definition gen_inv {rng} (n : nat) (st : gen_state rng) : Prop :=
  (counter st ≤ n)%nat ∧ ((counter st < n)%nat → indices st ≡ₚ seq 0 n).

Lemma select_index_reset `{NumpyRandom rng} n (st : gen_state rng) :
  counter st = n → (0 < n)%nat →
  ∃ i, (permutation n (random_state st)).1 !! 0%nat = Some i ∧
       select_index n st
         = Ok (i, GenState 1 (permutation n (random_state st)).1
                           (permutation n (random_state st)).2).
Proof.
  intros Hc Hn. unfold select_index. rewrite decide_True by done.
  cbn [counter indices random_state].
  destruct ((permutation n (random_state st)).1 !! 0%nat) as [i|] eqn:Hi.
  - exists i. done.
  - apply lookup_ge_None in Hi.
    rewrite (Permutation_length (permutation_spec n (random_state st))) in Hi.
    rewrite length_seq in Hi. lia.
Qed.

Lemma select_index_next `{NumpyRandom rng} n (st : gen_state rng) i :
  counter st ≠ n → indices st !! counter st = Some i →
  select_index n st
    = Ok (i, GenState (S (counter st)) (indices st) (random_state st)).
Proof.
  intros Hc Hi. unfold select_index. rewrite decide_False by done.
  by rewrite Hi.
Qed.

Lemma extract_features_ok svd hand mocap_sample occlusions :
  (length mocap_sample ≤ length hand)%nat →
  (∀ H, is_Some (svd H)) →
  Forall (λ i, i < length mocap_sample)%nat occlusions →
  ∃ x y, extract_features svd hand mocap_sample occlusions = Ok (x, y) ∧
         length x = (3 * length mocap_sample)%nat ∧
         length y = (3 * length mocap_sample)%nat.
Proof.
  intros Hhand Hsvd Hocc. rewrite extract_features_unfold.
  destruct (take_rows_ok (available_of (length mocap_sample) occlusions)
              mocap_sample) as (X & -> & HX).
  { apply Forall_forall. by intros i [? _]%elem_of_available_of. }
  destruct (take_rows_ok (available_of (length mocap_sample) occlusions)
              hand) as (Y & -> & HY).
  { apply Forall_forall. intros i [? _]%elem_of_available_of. lia. }
  cbn [mbind result_bind rbind].
  destruct (cross_covariance_length X Y) as [H0 HH]; [congruence|].
  destruct (Hsvd H0) as [[[U Sv] V] HUV].
  rewrite (rigid_motion_ok _ _ _ _ _ _ _ HH HUV).
  cbn [mbind result_bind rbind fst snd].
  unfold zero_rows. rewrite decide_True.
  - cbn [mbind result_bind rbind]. eexists _, _. split; [done|].
    rewrite !flatten_length, apply_motion_length.
    split; [|done]. f_equal.
    generalize (occluded_of occlusions). intros idxs.
    induction idxs as [|j idxs IH]; cbn [foldr]; [apply apply_motion_length|].
    unfold points in *. by rewrite length_insert.
  - rewrite apply_motion_length. apply Forall_forall.
    intros i Hi. rewrite elem_of_occluded_of in Hi.
    by apply (proj1 (Forall_forall _ _) Hocc).
Qed.

Lemma draw_occlusions_ok `{NumpyRandom rng} (min_occlusions max_occlusions : Z)
    (g : rng) :
  min_occlusions = (-1)%Z
  ∨ (0 ≤ min_occlusions ≤ max_occlusions
     ∧ max_occlusions ≤ Z.of_nat (length all_markers))%Z →
  ∃ occ g', draw_occlusions min_occlusions max_occlusions g = Ok (occ, g') ∧
            NoDup occ ∧ Forall (λ i, i < length all_markers)%nat occ ∧
            (if decide (min_occlusions = (-1)%Z)
             then (1 ≤ length occ ≤ 4)%nat
             else (min_occlusions ≤ Z.of_nat (length occ) ≤ max_occlusions)%Z).
Proof.
  intros Hp. unfold draw_occlusions.
  destruct (decide (min_occlusions = (-1)%Z)) as [->|Hmin].
  - destruct (decide ((-1)%Z ≠ (-1)%Z)) as [Hne|_]; [done|].
    cbn [mbind result_bind rbind fst snd].
    pose proof (choice_p_spec g) as Hc.
    destruct (choice_spec (length all_markers) (Z.of_nat (choice_p g).1 + 1)
                (choice_p g).2) as (l & Hl & Hnd & Hlen & Hall).
    { change (length all_markers) with 9%nat. lia. }
    rewrite Hl. cbn [mbind result_bind rbind].
    eexists _, _. split; [done|]. split; [done|]. split; [done|]. lia.
  - rewrite decide_True by done. destruct Hp as [?|[Hmm Hmax]]; [done|].
    destruct (randint_spec min_occlusions (max_occlusions + 1) g)
      as (v & Hv & Hrange); [lia|].
    rewrite Hv. cbn [mbind result_bind rbind fst snd].
    destruct (choice_spec (length all_markers) v
                (randint min_occlusions (max_occlusions + 1) g).2)
      as (l & Hl & Hnd & Hlen & Hall); [lia|].
    rewrite Hl. cbn [mbind result_bind rbind].
    eexists _, _. split; [done|]. split; [done|]. split; [done|]. lia.
Qed.

(** What one iteration does once the index is selected. *)
Lemma sample_step_ok `{NumpyRandom rng} svd hand (X : list points)
    (min_occlusions max_occlusions : Z) (st st1 : gen_state rng) i :
  Forall (λ s, length s = length all_markers) X →
  length hand = length all_markers →
  (∀ H, is_Some (svd H)) →
  min_occlusions = (-1)%Z
  ∨ (0 ≤ min_occlusions ≤ max_occlusions
     ∧ max_occlusions ≤ Z.of_nat (length all_markers))%Z →
  select_index (length X) st = Ok (i, st1) → (i < length X)%nat →
  ∃ row g',
    sample_step svd hand X min_occlusions max_occlusions st
      = Ok (row, GenState (counter st1) (indices st1) g') ∧
    row_idx row = i ∧
    length (row_x row) = (length all_markers * 3)%nat ∧
    length (row_y row) = (length all_markers * 3)%nat.
Proof.
  intros HX Hhand Hsvd Hp Hsel Hi. unfold sample_step. rewrite Hsel.
  cbn [mbind result_bind rbind fst snd].
  destruct (draw_occlusions_ok min_occlusions max_occlusions (random_state st1) Hp)
    as (occ & g' & -> & _ & Hocc & _).
  cbn [mbind result_bind rbind fst snd].
  destruct (lookup_lt_is_Some_2 X i Hi) as [s Hs]. rewrite Hs.
  cbn [of_option mbind result_bind rbind].
  assert (Hlen : length s = length all_markers).
  { eapply Forall_lookup_1 in HX; [exact HX|exact Hs]. }
  destruct (extract_features_ok svd hand s occ) as (x & y & -> & Hx & Hy).
  { lia. } { done. } { by rewrite Hlen. }
  cbn [mbind result_bind rbind fst snd]. rewrite decide_True by lia.
  eexists _, _. split; [done|]. cbn [row_idx row_x row_y]. lia.
Qed.


Lemma batch_rows_ok `{NumpyRandom rng} svd hand (X : list points)
    (min_occlusions max_occlusions : Z) k : ∀ (st : gen_state rng),
  X ≠ [] →
  Forall (λ s, length s = length all_markers) X →
  length hand = length all_markers →
  (∀ H, is_Some (svd H)) →
  min_occlusions = (-1)%Z
  ∨ (0 ≤ min_occlusions ≤ max_occlusions
     ∧ max_occlusions ≤ Z.of_nat (length all_markers))%Z →
  gen_inv (length X) st →
  ∃ rows st',
    batch_rows svd hand X min_occlusions max_occlusions k st = Ok (rows, st') ∧
    length rows = k ∧
    Forall (λ r, (row_idx r < length X)%nat
                 ∧ length (row_x r) = (length all_markers * 3)%nat
                 ∧ length (row_y r) = (length all_markers * 3)%nat) rows ∧
    gen_inv (length X) st'.
Proof.
  induction k as [|k IH]; intros st Hne HX Hhand Hsvd Hp [Hc Hperm].
  - exists [], st. done.
  - assert (Hn : (0 < length X)%nat) by (destruct X; [done|cbn; lia]).
    assert (∃ i st1, select_index (length X) st = Ok (i, st1)
                     ∧ (i < length X)%nat
                     ∧ (counter st1 ≤ length X)%nat
                     ∧ indices st1 ≡ₚ seq 0 (length X))
      as (i & st1 & Hsel & Hi & Hc1 & Hperm1).
    { destruct (decide (counter st = length X)) as [Heq|Hneq].
      - destruct (select_index_reset (length X) st Heq Hn) as (i & Hi & Hsel).
        eexists _, _. split; [exact Hsel|]. cbn [counter indices].
        pose proof (permutation_spec (length X) (random_state st)) as Hpp.
        split; [|split; [lia|done]].
        apply list_elem_of_lookup_2 in Hi. rewrite Hpp in Hi.
        apply elem_of_seq in Hi. lia.
      - specialize (Hperm ltac:(lia)).
        destruct (lookup_lt_is_Some_2 (indices st) (counter st)) as [i Hi].
        { rewrite Hperm, length_seq. lia. }
        eexists _, _. split; [by apply select_index_next|].
        cbn [counter indices]. split; [|split; [lia|done]].
        apply list_elem_of_lookup_2 in Hi. rewrite Hperm in Hi.
        apply elem_of_seq in Hi. lia. }
    destruct (sample_step_ok svd hand X min_occlusions max_occlusions st st1 i
                HX Hhand Hsvd Hp Hsel Hi) as (row & g1 & Hstep & Hidx & Hrx & Hry).
    destruct (IH (GenState (counter st1) (indices st1) g1) Hne HX Hhand Hsvd Hp)
      as (rows & st' & Hrows & Hlen & Hshape & Hinv).
    { split; cbn [counter indices]; done. }
    exists (row :: rows), st'. cbn [batch_rows]. rewrite Hstep.
    cbn [mbind result_bind rbind fst snd]. rewrite Hrows.
    cbn [mbind result_bind rbind fst snd].
    split; [done|]. split; [cbn [length]; by rewrite Hlen|].
    split; [|done]. constructor; [|done]. by rewrite Hidx.
Qed.

(** A dataset of one sample, and a stand-in for the SVD routine that always
    returns (the statements below only need that it returns). *)
Definition nine_markers : points :=
  octahedron ++ [V3 1 1 0; V3 0 1 1; V3 1 0 1].

Definition svd_total (H : mat3) : option svd_result := Some (meye, vzero, meye).



(** X24. Every minibatch is full: with a dataset that is not empty the
    generator returns [batch_size] rows of [3 * len(all_markers)] entries for
    the input and as many for the target, made from samples of the dataset,
    whatever the position of the cursor; a pass that ends inside a minibatch
    goes on with a new permutation. *)
Theorem generate_minibatch_full_batch `{NumpyRandom rng} svd hand
    (X : list points) (min_occlusions max_occlusions : Z) (st : gen_state rng) :
  X ≠ [] →
  Forall (λ s, length s = length all_markers) X →
  length hand = length all_markers →
  (∀ H, is_Some (svd H)) →
  min_occlusions = (-1)%Z
  ∨ (0 ≤ min_occlusions ≤ max_occlusions
     ∧ max_occlusions ≤ Z.of_nat (length all_markers))%Z →
  gen_inv (length X) st →
  ∃ X_batch Y_batch st',
    generate_minibatch svd hand X min_occlusions max_occlusions st
      = Ok (X_batch, Y_batch, st') ∧
    length X_batch = batch_size ∧ length Y_batch = batch_size ∧
    Forall (λ x, length x = (length all_markers * 3)%nat) X_batch ∧
    Forall (λ y, length y = (length all_markers * 3)%nat) Y_batch ∧
    gen_inv (length X) st'.
Proof.
  intros Hne HX Hhand Hsvd Hp Hinv. unfold generate_minibatch.
  destruct (batch_rows_ok svd hand X min_occlusions max_occlusions batch_size
              st Hne HX Hhand Hsvd Hp Hinv)
    as (rows & st' & -> & Hlen & Hshape & Hinv').
  eexists _, _, _. split; [done|]. rewrite !length_fmap.
  split; [done|]. split; [done|]. split; [|split; [|done]].
  - apply Forall_fmap. eapply Forall_impl; [exact Hshape|].
    by intros r (_ & ? & _).
  - apply Forall_fmap. eapply Forall_impl; [exact Hshape|].
    by intros r (_ & _ & ?).
Qed.

Lemma generate_minibatch_full_batch_witness :
  ∃ X_batch Y_batch st',
    generate_minibatch svd_total nine_markers [nine_markers] (-1) (-1)
      (gen_start [nine_markers] ())
      = Ok (X_batch, Y_batch, st') ∧
    length X_batch = batch_size ∧ length Y_batch = batch_size ∧
    Forall (λ x, length x = (length all_markers * 3)%nat) X_batch ∧
    Forall (λ y, length y = (length all_markers * 3)%nat) Y_batch ∧
    gen_inv (length [nine_markers]) st'.
Proof.
  apply (generate_minibatch_full_batch svd_total nine_markers [nine_markers]
           (-1) (-1) (gen_start [nine_markers] ())).
  - discriminate.
  - by repeat constructor.
  - reflexivity.
  - intros H. by eexists.
  - by left.
  - split; cbn; [lia|lia].
Defined.

(** X25. On an empty dataset the generator cannot produce anything: the
    first minibatch raises [IndexError], at [indices[counter]] on the empty
    permutation. *)
Theorem generate_minibatch_empty_dataset `{NumpyRandom rng} svd hand
    (min_occlusions max_occlusions : Z) (g : rng) :
  generate_minibatch svd hand [] min_occlusions max_occlusions (gen_start [] g)
    = Raise IndexError.
Proof.
  unfold generate_minibatch, batch_size.
  cbn [batch_rows]. unfold sample_step, select_index, gen_start.
  cbn [length counter indices random_state].
  rewrite decide_True by done. cbn [counter indices random_state].
  pose proof (permutation_spec 0 g) as Hp. cbn [seq] in Hp.
  apply Permutation_nil_r in Hp. rewrite Hp. done.
Qed.

(** ** More on normalize_positions *)

(** Whether the alignment of a frame raises inside the [try]. *)
Definition alignment_raises (svd : mat3 → option svd_result) (Y : points)
    (frame : points) : bool :=
  match take_rows alignment_points_markers frame with
  | Ok X =>
      match rigid_motion svd X Y with
      | Ok _ => false
      | Raise _ => true
      end
  | Raise _ => false
  end.

Lemma normalize_frames_count svd Y frames : ∀ l l' frames',
  normalize_frames svd Y l frames = (Ok l', frames') →
  error_count l'
    = (error_count l + length (filter (λ f, alignment_raises svd Y f) frames))%nat.
Proof.
  induction frames as [|f rest IH]; intros l l' frames'.
  - cbn. intros [= <- _]. lia.
  - cbn [normalize_frames]. rewrite filter_cons.
    destruct (take_rows alignment_points_markers f) as [X|e] eqn:HX.
    2:{ unfold normalize_frame. by rewrite HX. }
    destruct (rigid_motion svd X Y) as [[R t]|e] eqn:Hr.
    + rewrite (normalize_frame_success _ _ _ _ _ _ _ HX Hr).
      rewrite decide_False by (unfold alignment_raises; rewrite HX, Hr; exact id).
      destruct (normalize_frames svd Y _ rest) as [r rest'] eqn:Hrest.
      intros [= -> _]. apply IH in Hrest. by rewrite Hrest.
    + destruct l as [[[R0 t0]|] n].
      * rewrite (normalize_frame_stale _ _ _ _ _ _ _ _ HX Hr).
        rewrite decide_True by (unfold alignment_raises; rewrite HX, Hr; exact I).
        destruct (normalize_frames svd Y _ rest) as [r rest'] eqn:Hrest.
        intros [= -> _]. apply IH in Hrest. rewrite Hrest.
        cbn [error_count length]. lia.
      * by rewrite (normalize_frame_unbound_failure _ _ _ _ _ _ HX Hr).
Qed.

(** X26. When [normalize_positions] returns, the error count it reports is
    the number of frames whose alignment raised. *)
Theorem normalize_positions_error_count svd hand p (σ σ' : store) frames Y q n :
  σ !! p = Some frames →
  take_rows alignment_points_markers hand = Ok Y →
  normalize_positions svd hand p σ = (Ok (q, n), σ') →
  n = length (filter (λ f, alignment_raises svd Y f) frames).
Proof.
  intros Hp HY. rewrite (normalize_positions_frames _ _ _ _ _ _ Hp HY).
  destruct (normalize_frames svd Y (Locals None 0) frames) as [[l|e] frames'] eqn:Hf;
    [|done].
  intros [= _ <- _]. by apply normalize_frames_count in Hf.
Qed.

Lemma normalize_positions_error_count_witness :
  1%nat = length (filter (λ f, alignment_raises svd_diag
                                 [V3 1 0 0; V3 (-1) 0 0; V3 0 0 0] f)
                   [frame_shifted; frame_turned]).
Proof.
  apply (normalize_positions_error_count svd_diag hand_example 0%nat
           ({[ 0%nat := [frame_shifted; frame_turned] ]} : store)
           (<[0%nat := [apply_motion frame_shifted meye (V3 (-1) (qz (-2)) (qz (-3)));
                        apply_motion frame_turned meye (V3 (-1) (qz (-2)) (qz (-3)))]]>
              ({[ 0%nat := [frame_shifted; frame_turned] ]} : store))
           _ _ 0%nat).
  - reflexivity.
  - reflexivity.
  - qc_eval.
Defined.

(** X27. The indexing of the alignment markers is outside the [try]: when
    the template or the first frame has fewer than three markers,
    [normalize_positions] raises [IndexError] and no frame is written. *)
Theorem normalize_positions_index_error svd hand p (σ : store) f rest :
  σ !! p = Some (f :: rest) →
  (length hand < 3)%nat ∨ (length f < 3)%nat →
  normalize_positions svd hand p σ = (Raise IndexError, σ).
Proof.
  intros Hp Hshort.
  assert (Hrows : ∀ P : list vec3, (length P < 3)%nat →
            take_rows alignment_points_markers P = Raise IndexError).
  { intros P HP. rewrite alignment_points_markers_eq. unfold take_rows.
    destruct P as [|p0 [|p1 [|p2 P]]]; cbn in HP |- *; (done || lia). }
  destruct (decide (length hand < 3)%nat) as [Hhand|Hhand].
  - unfold normalize_positions. unfold points in *. by rewrite (Hrows hand Hhand).
  - destruct Hshort as [?|Hf]; [done|].
    destruct (take_rows alignment_points_markers hand) as [Y|e] eqn:HY.
    + rewrite (normalize_positions_frames _ _ _ _ _ _ Hp HY).
      cbn [normalize_frames]. unfold normalize_frame. unfold points in *.
      rewrite (Hrows f Hf). by rewrite insert_id.
    + unfold normalize_positions. unfold points in *. rewrite HY.
      f_equal. rewrite alignment_points_markers_eq in HY. unfold take_rows in HY.
      destruct hand as [|h0 [|h1 [|h2 hand]]]; cbn in Hhand, HY; (done || lia).
Qed.

Lemma normalize_positions_index_error_witness :
  normalize_positions svd_diag hand_example 0%nat
      ({[ 0%nat := [[V3 1 0 0; V3 0 1 0]; [V3 1 0 0; V3 0 1 0]] ]} : store)
    = (Raise IndexError,
       {[ 0%nat := [[V3 1 0 0; V3 0 1 0]; [V3 1 0 0; V3 0 1 0]] ]}).
Proof.
  apply (normalize_positions_index_error svd_diag hand_example 0%nat _
           [V3 1 0 0; V3 0 1 0] [[V3 1 0 0; V3 0 1 0]]).
  - reflexivity.
  - right. cbn. lia.
Defined.

(** ** dataset.py: extract_columns *)

(** A table as [pd.read_csv] gives it: the column names of the header and
    the rows of cells.  A cell a row does not have is missing (NaN). *)
Record dataframe := DataFrame {
  df_columns : list string;
  df_values : list (list cell)
}.

(** The columns [extract_columns] asks for: three per name. *)
Definition column_names (names : list string) (suffix : string) : list string :=
  names ≫= λ name,
    [ name +:+ "." +:+ suffix +:+ ".x";
      name +:+ "." +:+ suffix +:+ ".y";
      name +:+ "." +:+ suffix +:+ ".z" ]%string.

(** [dataset[columns].values]: [KeyError] when a name is not a column of the
    table. *)
Definition select_columns (dataset : dataframe) (columns : list string)
  : result (list (list cell)) :=
  match rmapM (λ c, of_option (list_index c (df_columns dataset)) KeyError)
              columns with
  | Ok positions =>
      Ok ((λ row : list cell, (λ p, default NaN (row !! p)) <$> positions)
            <$> df_values dataset)
  | Raise e => Raise e
  end.

(** One row of [a.reshape(a.shape[0], -1, 3)]. *)
Fixpoint rows_of_three {A} (l : list A) : result (list (list A)) :=
  match l with
  | [] => Ok []
  | x :: y :: z :: l' =>
      match rows_of_three l' with
      | Ok rows => Ok ([x; y; z] :: rows)
      | Raise e => Raise e
      end
  | _ => Raise ValueError
  end.

(** [output.reshape(output.shape[0], -1, 3)]: with no row at all the
    dimension [-1] cannot be inferred and NumPy raises [ValueError]. *)
Definition reshape_rows (output : list (list cell)) : result array3 :=
  match output with
  | [] => Raise ValueError
  | _ => rmapM rows_of_three output
  end.

Definition extract_columns (dataset : dataframe) (names : list string)
    (suffix : string) : result array3 :=
  match select_columns dataset (column_names names suffix) with
  | Ok output => reshape_rows output
  | Raise e => Raise e
  end.

(** The cell of a row in a named column. *)
Definition cell_at (dataset : dataframe) (row : list cell) (column : string)
  : cell :=
  default NaN (list_index column (df_columns dataset) ≫= λ p, row !! p).

Lemma rmapM_ok {A B} (f : A → result B) (g : A → B) xs :
  Forall (λ x, f x = Ok (g x)) xs → rmapM f xs = Ok (g <$> xs).
Proof.
  induction 1 as [|x xs Hx _ IH]; [done|].
  cbn [rmapM fmap list_fmap]. by rewrite Hx, IH.
Qed.

Lemma rmapM_raise {A B} (f : A → result B) xs x e :
  x ∈ xs → f x = Raise e → (∀ y e', f y = Raise e' → e' = e) →
  rmapM f xs = Raise e.
Proof.
  intros Hin Hx Hall. induction xs as [|y xs IH]; [by apply elem_of_nil in Hin|].
  cbn [rmapM]. destruct (f y) as [b|e'] eqn:Hy.
  - apply elem_of_cons in Hin as [->|Hin]; [congruence|].
    by rewrite (IH Hin).
  - by rewrite (Hall _ _ Hy).
Qed.

Lemma rows_of_three_bind {A B C} (h : C → A) (a b c : B → C) (names : list B) :
  rows_of_three (h <$> (names ≫= λ n, [a n; b n; c n]))
    = Ok ((λ n, [h (a n); h (b n); h (c n)]) <$> names).
Proof.
  induction names as [|n names IH]; [done|].
  cbn [mbind list_bind app rows_of_three fmap list_fmap] in *.
  by rewrite IH.
Qed.

Lemma select_columns_ok dataset columns :
  Forall (λ c, c ∈ df_columns dataset) columns →
  select_columns dataset columns
    = Ok ((λ row, cell_at dataset row <$> columns) <$> df_values dataset).
Proof.
  intros Hcols. unfold select_columns.
  assert (Hidx : ∀ c, c ∈ df_columns dataset →
            is_Some (list_index c (df_columns dataset))).
  { intros c. generalize (df_columns dataset). intros l.
    induction l as [|d l IH]; [by intros ?%elem_of_nil|].
    intros Hc. cbn [list_index].
    destruct (decide _) as [?|Hne]; [by eexists|].
    apply elem_of_cons in Hc as [->|Hc]; [done|].
    destruct (IH Hc) as [p ->]. by eexists. }
  rewrite (rmapM_ok _ (λ c, default 0%nat (list_index c (df_columns dataset)))).
  - f_equal. apply list_fmap_ext. intros _ row _.
    rewrite <- list_fmap_compose. apply Forall_fmap_ext_1.
    eapply Forall_impl; [exact Hcols|]. intros c Hc. cbn [compose].
    unfold cell_at. by destruct (Hidx c Hc) as [p ->].
  - eapply Forall_impl; [exact Hcols|]. intros c Hc.
    by destruct (Hidx c Hc) as [p ->].
Qed.

Lemma column_names_elem names suffix c :
  c ∈ column_names names suffix ↔
  ∃ name, name ∈ names ∧
          (c = name +:+ "." +:+ suffix +:+ ".x"
           ∨ c = name +:+ "." +:+ suffix +:+ ".y"
           ∨ c = name +:+ "." +:+ suffix +:+ ".z")%string.
Proof.
  unfold column_names. rewrite list_elem_of_bind. split.
  - intros (name & Hc & Hname). exists name. split; [done|].
    rewrite !elem_of_cons in Hc. destruct Hc as [?|[?|[?|?%elem_of_nil]]]; tauto.
  - intros (name & Hname & Hc). exists name. split; [|done].
    rewrite !elem_of_cons. tauto.
Qed.

Lemma rmapM_fmap {A B C} (f : B → result C) (s : A → B) xs :
  rmapM f (s <$> xs) = rmapM (f ∘ s) xs.
Proof.
  induction xs as [|x xs IH]; [done|].
  cbn [fmap list_fmap rmapM compose]. by rewrite IH.
Qed.

Lemma reshape_rows_nonempty {A} (s : A → list cell) xs :
  xs ≠ [] → reshape_rows (s <$> xs) = rmapM rows_of_three (s <$> xs).
Proof. by destruct xs. Qed.

Lemma extract_columns_ok dataset names suffix row rows :
  df_values dataset = row :: rows →
  Forall (λ c, c ∈ df_columns dataset) (column_names names suffix) →
  extract_columns dataset names suffix
    = Ok ((λ r, (λ name,
                   [ cell_at dataset r (name +:+ "." +:+ suffix +:+ ".x");
                     cell_at dataset r (name +:+ "." +:+ suffix +:+ ".y");
                     cell_at dataset r (name +:+ "." +:+ suffix +:+ ".z") ])
                  <$> names) <$> df_values dataset).
Proof.
  intros Hrows Hcols. unfold extract_columns.
  rewrite (select_columns_ok _ _ Hcols).
  rewrite reshape_rows_nonempty by (rewrite Hrows; discriminate).
  rewrite rmapM_fmap. apply rmapM_ok, Forall_forall. intros r _. cbn [compose].
  unfold column_names.
  apply (rows_of_three_bind (cell_at dataset r)
           (λ name, name +:+ "." +:+ suffix +:+ ".x")
           (λ name, name +:+ "." +:+ suffix +:+ ".y")
           (λ name, name +:+ "." +:+ suffix +:+ ".z"))%string.
Qed.

(** A table with the positions of two markers in two rows. *)
Definition mocap_table : dataframe :=
  DataFrame
    [ "time"; "LEHAR.pos.x"; "LEHAR.pos.y"; "LEHAR.pos.z";
      "LEHAL.pos.x"; "LEHAL.pos.y"; "LEHAL.pos.z" ]%string
    [ [Num 0; Num 1; Num (qz 2); Num (qz 3); Num (qz 4); Num (qz 5); Num (qz 6)];
      [Num 1; Num (qz 7); Num (qz 8); Num (qz 9); NaN; NaN; NaN] ].

(** X28. The array [extract_columns] builds from a table with at least one
    row and all the columns asked for: one frame per row of the table, in
    order; in each frame one triple per name, in the order of [names]; in
    each triple the cells of the columns [name.suffix.x], [name.suffix.y],
    [name.suffix.z] of that row. *)
Theorem extract_columns_layout dataset names suffix i row j name :
  Forall (λ c, c ∈ df_columns dataset) (column_names names suffix) →
  df_values dataset !! i = Some row →
  names !! j = Some name →
  ∃ (out : list (list (list cell))) frame,
    extract_columns dataset names suffix = Ok out ∧
    length out = length (df_values dataset) ∧
    out !! i = Some frame ∧
    length frame = length names ∧
    frame !! j
      = Some [ cell_at dataset row (name +:+ "." +:+ suffix +:+ ".x");
               cell_at dataset row (name +:+ "." +:+ suffix +:+ ".y");
               cell_at dataset row (name +:+ "." +:+ suffix +:+ ".z") ].
Proof.
  intros Hcols Hi Hj.
  destruct (df_values dataset) as [|r0 rows] eqn:Hrows; [done|].
  eexists _, _. split; [by eapply extract_columns_ok|].
  rewrite Hrows, !length_fmap. split; [done|].
  split; [by rewrite list_lookup_fmap, Hi|].
  rewrite length_fmap. split; [done|].
  by rewrite list_lookup_fmap, Hj.
Qed.

Lemma extract_columns_layout_witness :
  ∃ (out : list (list (list cell))) frame,
    extract_columns mocap_table ["LEHAR"; "LEHAL"]%string "pos" = Ok out ∧
    length out = length (df_values mocap_table) ∧
    out !! 1%nat = Some frame ∧
    length frame = length ["LEHAR"; "LEHAL"]%string ∧
    frame !! 0%nat
      = Some [ cell_at mocap_table
                 [Num 1; Num (qz 7); Num (qz 8); Num (qz 9); NaN; NaN; NaN]
                 ("LEHAR" +:+ "." +:+ "pos" +:+ ".x");
               cell_at mocap_table
                 [Num 1; Num (qz 7); Num (qz 8); Num (qz 9); NaN; NaN; NaN]
                 ("LEHAR" +:+ "." +:+ "pos" +:+ ".y");
               cell_at mocap_table
                 [Num 1; Num (qz 7); Num (qz 8); Num (qz 9); NaN; NaN; NaN]
                 ("LEHAR" +:+ "." +:+ "pos" +:+ ".z") ].
Proof.
  apply (extract_columns_layout mocap_table ["LEHAR"; "LEHAL"]%string "pos"
           1%nat _ 0%nat "LEHAR").
  - qc_eval.
  - reflexivity.
  - reflexivity.
Defined.

(** X29. A name that is not a column of the table makes [extract_columns]
    raise [KeyError]. *)
Theorem extract_columns_missing_column dataset names suffix c :
  c ∈ column_names names suffix → c ∉ df_columns dataset →
  extract_columns dataset names suffix = Raise KeyError.
Proof.
  intros Hc Hmissing. unfold extract_columns, select_columns.
  rewrite (rmapM_raise _ _ c KeyError Hc); [done| |].
  - assert (Hnone : list_index c (df_columns dataset) = None); [|by rewrite Hnone].
    revert Hmissing. generalize (df_columns dataset). intros l.
    induction l as [|d l IH]; [done|].
    intros [Hne Hl]%not_elem_of_cons. cbn [list_index].
    rewrite decide_False by done. by rewrite (IH Hl).
  - intros y e'. by destruct (list_index y _); [|intros [= <-]].
Qed.

Lemma extract_columns_missing_column_witness :
  extract_columns mocap_table ["LEHAR"; "WHARHAR"]%string "pos" = Raise KeyError.
Proof.
  apply (extract_columns_missing_column mocap_table ["LEHAR"; "WHARHAR"]%string
           "pos" "WHARHAR.pos.y").
  - qc_eval.
  - qc_eval.
Defined.

(** X30. A table that has the columns but not a single row makes
    [extract_columns] raise [ValueError]: the reshape cannot infer the
    dimension given as [-1]. *)
Theorem extract_columns_empty_table dataset names suffix :
  Forall (λ c, c ∈ df_columns dataset) (column_names names suffix) →
  df_values dataset = [] →
  extract_columns dataset names suffix = Raise ValueError.
Proof.
  intros Hcols Hrows. unfold extract_columns.
  by rewrite (select_columns_ok _ _ Hcols), Hrows.
Qed.

Lemma extract_columns_empty_table_witness :
  extract_columns (DataFrame (df_columns mocap_table) [])
    ["LEHAL"; "LEHAR"]%string "pos" = Raise ValueError.
Proof.
  apply (extract_columns_empty_table (DataFrame (df_columns mocap_table) [])).
  - qc_eval.
  - reflexivity.
Defined.
